(** * BRACU announcement bot: the reconciliation-and-delivery core

    A shallow embedding of [src/notice-embed.js] (the bot with retries
    and per-announcement error handling), of the cycle of its variant
    [src/unnamed/part_001] (one send per webhook, no error handling in
    the loop) and of the one-shot scraper [src/unnamed/part_000],
    followed by the properties of the reconciliation cycle, of the
    webhook dispatcher and of the announcement store.

    Modelling conventions.
    - Durations and clock readings are milliseconds in [Z]; timers fire
      exactly on time, and a promise that settles at the very instant a
      timer fires loses the race to the timer.
    - The world outside the process (the RSS bridge, Discord, GitHub, the
      wall clock) is an oracle record [Env] that a cycle reads.
    - A computation is a function from the process state [World] to a
      completion (normal or thrown), a new state, and the list of
      effects it performed, in order.
    - [fs.readFileSync] followed by [JSON.parse] is library code: the
      model keeps of the state file what [JSON.parse] makes of it, and
      [JSON.stringify] followed by [JSON.parse] gives the records back.
      Writing the state file does not fail.
    - [EmbedBuilder] is library code (discord.js): whether its setters
      accept the title and the link of an announcement, and the message
      they throw when they do not, is read off the oracle. Formatting
      the date sits in a [try] of its own and cannot end the call.
    - [getWebhookParts] cannot throw: it splits a string. The [break]
      on an invalid webhook URL is therefore never taken and is not
      modelled.
    - A posting that loses the 30 s race of [main] keeps running in the
      background; it touches none of the state modelled here. *)

From Stdlib Require Import ZArith.
From stdpp Require Import base strings list gmap pretty.

Open Scope string_scope.
Open Scope Z_scope.
Open Scope list_scope.

(** ** Data model *)

(** A candidate as [fetchAnnouncements] normalises it. *)
Record Announcement := {
  ann_id : string;
  ann_title : string;
  ann_pubDate : string;
  ann_link : string
}.

(** An element of the state file: [{id, title, postedAt}]. *)
Record PostedRecord := {
  rec_id : string;
  rec_title : string;
  rec_postedAt : string
}.

(** An element of [results] in [postToDiscord]. *)
Record DeliveryOutcome := {
  success : bool;
  serverName : string;
  error : option string
}.

#[global] Instance Announcement_eq_dec : EqDecision Announcement.
Proof. solve_decision. Defined.
#[global] Instance PostedRecord_eq_dec : EqDecision PostedRecord.
Proof. solve_decision. Defined.
#[global] Instance DeliveryOutcome_eq_dec : EqDecision DeliveryOutcome.
Proof. solve_decision. Defined.

(** What [JSON.parse] returns on a state file it accepts: an array of
    records, or some other JSON value, kept as its JSON text. *)
Inductive JsonValue :=
  | JArray (records : list PostedRecord)
  | JOther (text : string).

(** The TypeError of [posted.map(...)] on a parsed value that is not an
    array: [null] has no properties, on the other values [map] is
    undefined. *)
Definition mapTypeError (text : string) : string :=
  if decide (text = "null")
  then "Cannot read properties of null (reading 'map')"
  else "posted.map is not a function".

(** The content of [DB_FILE]: text on which reading or parsing throws,
    or text that parses. *)
Inductive FileContent :=
  | Unparsable (raw : string)
  | Parsable (value : JsonValue).

(** The process state that outlives a cycle: the state file ([None] when
    [fs.existsSync] is false) and the module variable [lastSyncTime]. *)
Record World := {
  db_file : option FileContent;
  lastSyncTime : Z
}.

(** Console lines the properties refer to. *)
Inductive LogLine :=
  | LogCreatingEmptyDatabase
  | LogNoAnnouncementsInFeed
  | LogPostedSomewhere (title : string)
  | LogFailedEverywhere
  | LogPostingError (message : string)
  | LogWillBeSaved (title id : string)
  | LogNotSaved (title id : string)
  | LogUpdatedDatabase (count : nat)
  | LogNoneCouldBePosted
  | LogNoNewAnnouncements
  | LogErrorInMain (message : string).

(** Observable effects of a computation. *)
Inductive Event :=
  | EvWriteFile (records : list PostedRecord)
  | EvPostToDiscord (index : nat) (ann : Announcement)
  | EvSyncToGitHub
  | EvLog (line : LogLine).

#[global] Instance LogLine_eq_dec : EqDecision LogLine.
Proof. solve_decision. Defined.
#[global] Instance Event_eq_dec : EqDecision Event.
Proof. solve_decision. Defined.

(** How one [webhookClient.send] behaves: it fulfils or rejects after so
    many milliseconds (a constructor that throws rejects after 0). *)
Inductive SendBehaviour :=
  | Resolves (ms : Z)
  | Rejects (ms : Z) (message : string).

(** Module-level configuration read from the process environment. *)
Record Config := {
  WEBHOOK_URLS : list string;
  WEBHOOK_NAMES : list string;
  GITHUB_TOKEN : bool
}.

(** The oracle one cycle consults. [embedError ann] is the message of
    the error the [EmbedBuilder] chain of [postToDiscord] throws for
    the announcement, [None] when the embed is built; [send i w k] is
    the behaviour of attempt [k] on webhook [w] for the candidate at
    feed index [i]; [stamp i] is [new Date().toISOString()] when that
    candidate is confirmed; [now] is [Date.now()] in [syncIfNeeded]. *)
Record Env := {
  feed : string + list Announcement;
  embedError : Announcement -> option string;
  send : nat -> nat -> nat -> SendBehaviour;
  stamp : nat -> string;
  now : Z;
  github_ok : bool
}.

(** The record pushed for the candidate [ann] at feed index [i]:
    [{id: ann.id, title: ann.title, postedAt: new Date().toISOString()}]. *)
Definition postedRecordOf (env : Env) (i : nat) (ann : Announcement)
    : PostedRecord :=
  {| rec_id := ann_id ann; rec_title := ann_title ann;
     rec_postedAt := stamp env i |}.

(** ** Computations: state, effects, exceptions *)

Inductive Completion (A : Type) :=
  | Normal (a : A)
  | Thrown (message : string).
Arguments Normal {A} a.
Arguments Thrown {A} message.

Definition M (A : Type) : Type := World -> Completion A * World * list Event.

Definition ret {A} (a : A) : M A := fun w => (Normal a, w, []).

Definition bind {A B} (m : M A) (k : A -> M B) : M B := fun w =>
  match m w with
  | (Normal a, w1, e1) =>
      match k a w1 with
      | (r, w2, e2) => (r, w2, e1 ++ e2)
      end
  | (Thrown msg, w1, e1) => (Thrown msg, w1, e1)
  end.

Definition throw {A} (msg : string) : M A := fun w => (Thrown msg, w, []).

Definition try_catch {A} (m : M A) (handler : string -> M A) : M A := fun w =>
  match m w with
  | (Normal a, w1, e1) => (Normal a, w1, e1)
  | (Thrown msg, w1, e1) =>
      match handler msg w1 with
      | (r, w2, e2) => (r, w2, e1 ++ e2)
      end
  end.

Definition emit (e : Event) : M unit := fun w => (Normal tt, w, [e]).
Definition log (l : LogLine) : M unit := emit (EvLog l).
Definition get_world : M World := fun w => (Normal w, w, []).
Definition put_world (w' : World) : M unit := fun _ => (Normal tt, w', []).

#[global] Instance M_ret : MRet M := @ret.
#[global] Instance M_bind : MBind M := fun A B k m => bind m k.

(** ** [src/notice-embed.js] *)

Module NoticeEmbed.

Definition SYNC_INTERVAL_MS : Z := 24 * 60 * 60 * 1000.

(** [fs.writeFileSync(DB_FILE, JSON.stringify(records, null, 2))]. *)
Definition writeDb (records : list PostedRecord) : M unit :=
  w ← get_world;
  put_world {| db_file := Some (Parsable (JArray records));
               lastSyncTime := lastSyncTime w |};;
  emit (EvWriteFile records).

(** [loadPosted]: the parsed file when it exists and parses; otherwise
    the file is (re)created holding [[]] and [[]] is returned. *)
Definition loadPosted : M JsonValue :=
  w ← get_world;
  match db_file w with
  | Some (Parsable v) => ret v
  | Some (Unparsable _) =>
      log LogCreatingEmptyDatabase;;
      writeDb [];;
      ret (JArray [])
  | None =>
      log LogCreatingEmptyDatabase;;
      writeDb [];;
      ret (JArray [])
  end.

Definition savePosted (posted : list PostedRecord) : M unit := writeDb posted.

(** *** The dispatcher *)

(** [WEBHOOK_NAMES[i] || `Server ${i + 1}`]: the empty string is falsy. *)
Definition serverNameOf (cfg : Config) (i : nat) : string :=
  match WEBHOOK_NAMES cfg !! i with
  | Some name => if decide (name = "") then "Server " +:+ pretty (i + 1)%nat else name
  | None => "Server " +:+ pretty (i + 1)%nat
  end.

(** [10000 * attempt]: 10s, 20s, 30s. *)
Definition timeoutMs (attempt : nat) : Z := 10000 * Z.of_nat attempt.

(** [2000 * Math.pow(2, attempt - 1)]: 2s, 4s. *)
Definition backoffDelay (attempt : nat) : Z := 2000 * 2 ^ (Z.of_nat attempt - 1).

Definition timeoutMessage (attempt : nat) : string :=
  "Discord webhook request timed out after "
    +:+ pretty (timeoutMs attempt / 1000) +:+ " seconds".

(** [await Promise.race([webhookPromise, timeoutPromise])]: the send
    wins when it settles strictly before the timer. The result is
    [None] when the race fulfils and the error message when it rejects,
    with the time the race took. *)
Definition raceSend (attempt : nat) (b : SendBehaviour) : option string * Z :=
  match b with
  | Resolves ms =>
      if ms <? timeoutMs attempt then (None, ms)
      else (Some (timeoutMessage attempt), timeoutMs attempt)
  | Rejects ms message =>
      if ms <? timeoutMs attempt then (Some message, ms)
      else (Some (timeoutMessage attempt), timeoutMs attempt)
  end.

(** The variables of one target's retry loop, the clock, and the
    attempt numbers made so far. *)
Record RetryState := {
  rs_success : bool;
  rs_lastError : option string;
  rs_clock : Z;
  rs_attempts : list nat
}.

(** [for (let attempt = 1; attempt <= 3; attempt++)], over the attempt
    numbers still to run; success leaves the loop. *)
Fixpoint retryLoop (sendTo : nat -> SendBehaviour) (attempts : list nat)
    (st : RetryState) : RetryState :=
  match attempts with
  | [] => st
  | attempt :: rest =>
      match raceSend attempt (sendTo attempt) with
      | (None, took) =>
          {| rs_success := true;
             rs_lastError := rs_lastError st;
             rs_clock := rs_clock st + took;
             rs_attempts := rs_attempts st ++ [attempt] |}
      | (Some message, took) =>
          retryLoop sendTo rest
            {| rs_success := rs_success st;
               rs_lastError := Some message;
               rs_clock := rs_clock st + took
                 + (if (attempt <? 3)%nat then backoffDelay attempt else 0);
               rs_attempts := rs_attempts st ++ [attempt] |}
      end
  end.

(** The variables of the loop over the webhooks. *)
Record PostState := {
  ps_results : list DeliveryOutcome;
  ps_clock : Z;
  ps_attempts : list (nat * nat)
}.

(** The body of [for (let i = 0; i < WEBHOOK_URLS.length; i++)]. *)
Definition webhookStep (cfg : Config) (sendTo : nat -> nat -> SendBehaviour)
    (i : nat) (st : PostState) : PostState :=
  let name := serverNameOf cfg i in
  let r := retryLoop (sendTo i) (seq 1 3)
             {| rs_success := false; rs_lastError := None;
                rs_clock := ps_clock st; rs_attempts := [] |} in
  {| ps_results :=
       ps_results st ++
         [if rs_success r
          then {| success := true; serverName := name; error := None |}
          else {| success := false; serverName := name;
                  error := Some (default "Unknown error" (rs_lastError r)) |}];
     ps_clock := rs_clock r + 1000;
     ps_attempts := ps_attempts st ++ (pair i <$> rs_attempts r) |}.

Fixpoint webhookLoop (cfg : Config) (sendTo : nat -> nat -> SendBehaviour)
    (indices : list nat) (st : PostState) : PostState :=
  match indices with
  | [] => st
  | i :: rest => webhookLoop cfg sendTo rest (webhookStep cfg sendTo i st)
  end.

(** What a call of [postToDiscord] amounts to: how its promise settles,
    when (milliseconds after the call), and the attempts it made, as
    (webhook index, attempt number). *)
Record Posting := {
  settles : string + list DeliveryOutcome;
  settledAt : Z;
  attemptsMade : list (nat * nat)
}.

(** The loop of [postToDiscord] over all configured webhooks. *)
Definition deliver (cfg : Config) (sendTo : nat -> nat -> SendBehaviour)
    : PostState :=
  webhookLoop cfg sendTo (seq 0 (length (WEBHOOK_URLS cfg)))
    {| ps_results := []; ps_clock := 0; ps_attempts := [] |}.

(** [postToDiscord] from [const results = []] on, once the embed is
    built. *)
Definition postEmbed (cfg : Config) (sendTo : nat -> nat -> SendBehaviour)
    : Posting :=
  let st := deliver cfg sendTo in
  let results := ps_results st in
  {| settles :=
       if (0 <? length results)%nat && forallb (fun r => negb (success r)) results
       then inl "Failed to post to all Discord webhooks after multiple retries"
       else inr results;
     settledAt := ps_clock st;
     attemptsMade := ps_attempts st |}.

(** [postToDiscord]: the embed is built before any webhook is looked
    at and outside every [try]; when [EmbedBuilder] throws, the promise
    rejects at once with its error and no attempt has been made. *)
Definition postToDiscord (cfg : Config) (builder : Announcement -> option string)
    (announcement : Announcement) (sendTo : nat -> nat -> SendBehaviour)
    : Posting :=
  match builder announcement with
  | Some message => {| settles := inl message; settledAt := 0; attemptsMade := [] |}
  | None => postEmbed cfg sendTo
  end.

(** *** Remote backup *)

(** [syncToGitHub]: [false] without a token; otherwise the state file
    is created empty when missing, and the outcome of the GitHub calls
    is returned (every failure is caught inside). *)
Definition syncToGitHub (cfg : Config) (env : Env) : M bool :=
  emit EvSyncToGitHub;;
  if GITHUB_TOKEN cfg then
    w ← get_world;
    match db_file w with
    | None => writeDb []
    | Some _ => ret tt
    end;;
    ret (github_ok env)
  else ret false.

Definition syncIfNeeded (cfg : Config) (env : Env) : M unit :=
  w ← get_world;
  if SYNC_INTERVAL_MS <=? now env - lastSyncTime w then
    ok ← syncToGitHub cfg env;
    if ok : bool then
      w' ← get_world;
      put_world {| db_file := db_file w'; lastSyncTime := now env |}
    else ret tt
  else ret tt.

(** *** The reconciliation cycle *)

(** [Promise.race([postingPromise, timeoutPromise])] in [main]: the
    posting wins when it settles strictly before the 30 s timer. *)
Definition racePosting (p : Posting) : string + list DeliveryOutcome :=
  if settledAt p <? 30000 then settles p
  else inl "Discord posting timed out after 30 seconds".

(** The variables of the loop over the candidates. *)
Record LoopState := {
  successfulAnnouncements : list PostedRecord;
  newPosted : bool;
  newCount : nat
}.

(** The body of the loop for the candidate [ann] at feed index [i].
    The inner [try] turns a rejected race into [discordSuccess = false];
    nothing in the outer [try] of the body can throw. The 1 s pause
    after a posting only delays the next one. *)
Definition processAnnouncement (cfg : Config) (env : Env)
    (postedIds : gset string) (i : nat) (ann : Announcement)
    (st : LoopState) : M LoopState :=
  if decide (ann_id ann ∈ postedIds) then ret st
  else
    emit (EvPostToDiscord i ann);;
    discordSuccess ←
      match racePosting (postToDiscord cfg (embedError env) ann (send env i)) with
      | inr postingResult =>
          if existsb success postingResult
          then log (LogPostedSomewhere (ann_title ann));; ret true
          else log LogFailedEverywhere;; ret false
      | inl message => log (LogPostingError message);; ret false
      end;
    if discordSuccess : bool then
      log (LogWillBeSaved (ann_title ann) (ann_id ann));;
      ret {| successfulAnnouncements :=
               successfulAnnouncements st ++
                 [postedRecordOf env i ann];
             newPosted := true;
             newCount := S (newCount st) |}
    else
      log (LogNotSaved (ann_title ann) (ann_id ann));;
      ret st.

(** [for (let i = announcements.length - 1; i >= 0; i--)], with
    [k = i + 1]. Reading [ann.id] off a missing element throws. *)
Fixpoint candidateLoop (cfg : Config) (env : Env) (postedIds : gset string)
    (announcements : list Announcement) (k : nat) (st : LoopState)
    : M LoopState :=
  match k with
  | O => ret st
  | S i =>
      match announcements !! i with
      | Some ann =>
          st' ← processAnnouncement cfg env postedIds i ann st;
          candidateLoop cfg env postedIds announcements i st'
      | None => throw "Cannot read properties of undefined (reading 'id')"
      end
  end.

Definition initialLoopState : LoopState :=
  {| successfulAnnouncements := []; newPosted := false; newCount := 0 |}.

(** The [try] block of [main]. *)
Definition mainBody (cfg : Config) (env : Env) : M unit :=
  loaded ← loadPosted;
  match loaded with
  | JOther text => throw (mapTypeError text)
  | JArray posted =>
      let postedIds : gset string := list_to_set (rec_id <$> posted) in
      match feed env with
      | inl message => throw message
      | inr announcements =>
          if decide (length announcements = 0%nat)
          then log LogNoAnnouncementsInFeed
          else
            st ← candidateLoop cfg env postedIds announcements
                   (length announcements) initialLoopState;
            if (0 <? length (successfulAnnouncements st))%nat then
              savePosted (posted ++ successfulAnnouncements st);;
              log (LogUpdatedDatabase (length (successfulAnnouncements st)));;
              syncToGitHub cfg env;;
              ret tt
            else if newPosted st then log LogNoneCouldBePosted
            else
              log LogNoNewAnnouncements;;
              syncIfNeeded cfg env
      end
  end.

(** [main]: whatever the body throws is logged and swallowed. *)
Definition main (cfg : Config) (env : Env) : M unit :=
  try_catch (mainBody cfg env) (fun message => log (LogErrorInMain message)).

(** One cycle from a state: the state and the effects it leaves. *)
Definition runCycle (cfg : Config) (env : Env) (w : World) : World * list Event :=
  match main cfg env w with
  | (_, w', events) => (w', events)
  end.

End NoticeEmbed.

(** ** [src/unnamed/part_001]: the variant without retries *)

Module Part001.

(** [loadPosted]: parses the file when it exists ([JSON.parse] may
    throw); [[]] otherwise, without creating it. *)
Definition loadPosted : M JsonValue :=
  w ← get_world;
  match db_file w with
  | Some (Parsable v) => ret v
  | Some (Unparsable _) => throw "Unexpected token in JSON"
  | None => ret (JArray [])
  end.

Definition savePosted (posted : list PostedRecord) : M unit :=
  NoticeEmbed.writeDb posted.

(** The loop of [postToDiscord]: one send per webhook, no retry and no
    timer. *)
Fixpoint webhookLoop (cfg : Config) (sendTo : nat -> nat -> SendBehaviour)
    (indices : list nat) (results : list DeliveryOutcome)
    : list DeliveryOutcome :=
  match indices with
  | [] => results
  | i :: rest =>
      let name := NoticeEmbed.serverNameOf cfg i in
      webhookLoop cfg sendTo rest
        (results ++
           [match sendTo i 1%nat with
            | Resolves _ => {| success := true; serverName := name; error := None |}
            | Rejects _ message =>
                {| success := false; serverName := name; error := Some message |}
            end])
  end.

(** [postToDiscord]: the embed is built first, outside the [try] of
    the loop, so what [EmbedBuilder] throws leaves the function; then
    the loop, and a throw when every webhook failed. *)
Definition postToDiscord (cfg : Config) (builder : Announcement -> option string)
    (announcement : Announcement) (sendTo : nat -> nat -> SendBehaviour)
    : M (list DeliveryOutcome) :=
  match builder announcement with
  | Some message => throw message
  | None =>
      let results :=
        webhookLoop cfg sendTo (seq 0 (length (WEBHOOK_URLS cfg))) [] in
      if (0 <? length results)%nat && forallb (fun r => negb (success r)) results
      then throw "Failed to post to all Discord webhooks"
      else ret results
  end.

(** [syncToGitHub]: reading a missing state file throws inside the
    [try], which returns [false]. *)
Definition syncToGitHub (cfg : Config) (env : Env) : M bool :=
  emit EvSyncToGitHub;;
  if GITHUB_TOKEN cfg then
    w ← get_world;
    match db_file w with
    | None => ret false
    | Some _ => ret (github_ok env)
    end
  else ret false.

Definition syncIfNeeded (cfg : Config) (env : Env) : M unit :=
  w ← get_world;
  if NoticeEmbed.SYNC_INTERVAL_MS <=? now env - lastSyncTime w then
    ok ← syncToGitHub cfg env;
    if ok : bool then
      w' ← get_world;
      put_world {| db_file := db_file w'; lastSyncTime := now env |}
    else ret tt
  else ret tt.

(** The loop of [main], with [k = i + 1]: records are pushed onto
    [posted] itself, and a throw of [postToDiscord] leaves the loop. *)
Fixpoint candidateLoop (cfg : Config) (env : Env) (postedIds : gset string)
    (announcements : list Announcement) (k : nat)
    (st : list PostedRecord * bool) : M (list PostedRecord * bool) :=
  match k with
  | O => ret st
  | S i =>
      match announcements !! i with
      | Some ann =>
          if decide (ann_id ann ∈ postedIds)
          then candidateLoop cfg env postedIds announcements i st
          else
            emit (EvPostToDiscord i ann);;
            postToDiscord cfg (embedError env) ann (send env i);;
            candidateLoop cfg env postedIds announcements i
              (st.1 ++ [postedRecordOf env i ann], true)
      | None => throw "Cannot read properties of undefined (reading 'id')"
      end
  end.

Definition mainBody (cfg : Config) (env : Env) : M unit :=
  loaded ← loadPosted;
  match loaded with
  | JOther text => throw (mapTypeError text)
  | JArray posted =>
      let postedIds : gset string := list_to_set (rec_id <$> posted) in
      match feed env with
      | inl message => throw message
      | inr announcements =>
          if decide (length announcements = 0%nat)
          then log LogNoAnnouncementsInFeed
          else
            '(posted', newPosted) ←
              candidateLoop cfg env postedIds announcements
                (length announcements) (posted, false);
            if newPosted : bool then
              savePosted posted';;
              log (LogUpdatedDatabase (length posted' - length posted));;
              syncToGitHub cfg env;;
              ret tt
            else
              log LogNoNewAnnouncements;;
              syncIfNeeded cfg env
      end
  end.

Definition main (cfg : Config) (env : Env) : M unit :=
  try_catch (mainBody cfg env) (fun message => log (LogErrorInMain message)).

Definition runCycle (cfg : Config) (env : Env) (w : World) : World * list Event :=
  match main cfg env w with
  | (_, w', events) => (w', events)
  end.

End Part001.

(** ** Observations on states and effect lists *)

(** The announcement store a state holds: the records of the state
    file, empty when the file is missing or does not hold an array. *)
Definition store (w : World) : list PostedRecord :=
  match db_file w with
  | Some (Parsable (JArray records)) => records
  | _ => []
  end.

Definition storeIds (w : World) : list string := rec_id <$> store w.

(** [postedIds] as [main] builds it from the loaded store. *)
Definition knownIds (w : World) : gset string := list_to_set (storeIds w).

Definition dispatchesOf (events : list Event) : list (nat * Announcement) :=
  omap (fun e => match e with EvPostToDiscord i a => Some (i, a) | _ => None end)
       events.

Definition writesOf (events : list Event) : list (list PostedRecord) :=
  omap (fun e => match e with EvWriteFile rs => Some rs | _ => None end) events.

Definition syncsOf (events : list Event) : nat :=
  length (filter (fun e => e = EvSyncToGitHub) events).

(** The attempt numbers a posting made on webhook [w]. *)
Definition triesOn (w : nat) (attempts : list (nat * nat)) : list nat :=
  (filter (fun a => a.1 = w) attempts).*2.

(** ** The dispatcher in closed form *)

Section DispatcherModel.
Import NoticeEmbed.

(** Attempt [k] fulfils before its timer. *)
Definition succeedsAt (sendTo : nat -> SendBehaviour) (k : nat) : bool :=
  match (raceSend k (sendTo k)).1 with None => true | Some _ => false end.

(** The attempts made out of a schedule: up to and including the first
    that fulfils. *)
Fixpoint attemptsRun (sendTo : nat -> SendBehaviour) (schedule : list nat)
    : list nat :=
  match schedule with
  | [] => []
  | k :: rest => if succeedsAt sendTo k then [k] else k :: attemptsRun sendTo rest
  end.

(** The error message left in [lastError] by the attempts made. *)
Fixpoint lastErrorRun (sendTo : nat -> SendBehaviour) (schedule : list nat)
    (e : option string) : option string :=
  match schedule with
  | [] => e
  | k :: rest =>
      match (raceSend k (sendTo k)).1 with
      | None => e
      | Some message => lastErrorRun sendTo rest (Some message)
      end
  end.

(** The outcome pushed for webhook [i]. *)
Definition outcomeOf (cfg : Config) (sendTo : nat -> nat -> SendBehaviour)
    (i : nat) : DeliveryOutcome :=
  if existsb (succeedsAt (sendTo i)) (seq 1 3)
  then {| success := true; serverName := serverNameOf cfg i; error := None |}
  else {| success := false; serverName := serverNameOf cfg i;
          error := Some (default "Unknown error"
                           (lastErrorRun (sendTo i) (seq 1 3) None)) |}.

End DispatcherModel.

(** ** The cycle in closed form *)

Section CycleModel.
Import NoticeEmbed.

(** The value of [discordSuccess] in [main] for the candidate [ann] at
    feed index [i]: the posting settled before the 30 s timer, without
    throwing, and some outcome has [success: true]. *)
Definition discordSuccess (cfg : Config) (env : Env) (i : nat)
    (ann : Announcement) : bool :=
  match racePosting (postToDiscord cfg (embedError env) ann (send env i)) with
  | inr postingResult => existsb success postingResult
  | inl _ => false
  end.

Definition postingLog (cfg : Config) (env : Env) (i : nat) (ann : Announcement)
    : LogLine :=
  match racePosting (postToDiscord cfg (embedError env) ann (send env i)) with
  | inr postingResult =>
      if existsb success postingResult then LogPostedSomewhere (ann_title ann)
      else LogFailedEverywhere
  | inl message => LogPostingError message
  end.

(** The effects of processing one unknown candidate. *)
Definition eventsFor (cfg : Config) (env : Env) (p : nat * Announcement)
    : list Event :=
  [EvPostToDiscord p.1 p.2;
   EvLog (postingLog cfg env p.1 p.2);
   EvLog (if discordSuccess cfg env p.1 p.2
          then LogWillBeSaved (ann_title p.2) (ann_id p.2)
          else LogNotSaved (ann_title p.2) (ann_id p.2))].

(** The candidates a cycle dispatches, in dispatch order: the feed from
    its last element to its first, less the ids already known. *)
Definition toProcess (ids : gset string) (announcements : list Announcement)
    : list (nat * Announcement) :=
  filter (fun p => ann_id p.2 ∉ ids) (reverse (imap pair announcements)).

Definition confirmedOf (cfg : Config) (env : Env)
    (l : list (nat * Announcement)) : list (nat * Announcement) :=
  filter (fun p => discordSuccess cfg env p.1 p.2 = true) l.

Definition newRecords (cfg : Config) (env : Env) (ids : gset string)
    (announcements : list Announcement) : list PostedRecord :=
  (fun p => postedRecordOf env p.1 p.2)
    <$> confirmedOf cfg env (toProcess ids announcements).

(** The loop variables after the given confirmed candidates. *)
Definition loopAdvance (env : Env) (confirmed : list (nat * Announcement))
    (st : LoopState) : LoopState :=
  foldl (fun st p =>
           {| successfulAnnouncements :=
                successfulAnnouncements st ++ [postedRecordOf env p.1 p.2];
              newPosted := true;
              newCount := S (newCount st) |})
        st confirmed.

(** [loadPosted] as a function of the state. *)
Definition loadedValue (w : World) : JsonValue :=
  match db_file w with
  | Some (Parsable v) => v
  | _ => JArray []
  end.

Definition loadWorld (w : World) : World :=
  match db_file w with
  | Some (Parsable _) => w
  | _ => {| db_file := Some (Parsable (JArray [])); lastSyncTime := lastSyncTime w |}
  end.

Definition loadEvents (w : World) : list Event :=
  match db_file w with
  | Some (Parsable _) => []
  | _ => [EvLog LogCreatingEmptyDatabase; EvWriteFile []]
  end.

(** The state file holds an array of records, or nothing [loadPosted]
    can read back: [posted.map] will not throw. *)
Definition holdsRecords (w : World) : Prop :=
  forall text, db_file w ≠ Some (Parsable (JOther text)).

(** [syncIfNeeded] on a state whose file exists. *)
Definition idleSyncWorld (cfg : Config) (env : Env) (w : World) : World :=
  if SYNC_INTERVAL_MS <=? now env - lastSyncTime w then
    if GITHUB_TOKEN cfg && github_ok env
    then {| db_file := db_file w; lastSyncTime := now env |}
    else w
  else w.

Definition idleSyncEvents (env : Env) (w : World) : list Event :=
  if SYNC_INTERVAL_MS <=? now env - lastSyncTime w then [EvSyncToGitHub] else [].

(** Cycles in sequence, each with its own oracle. *)
Fixpoint runCycles (cfg : Config) (envs : list Env) (w : World) : World :=
  match envs with
  | [] => w
  | env :: rest => runCycles cfg rest (runCycle cfg env w).1
  end.

End CycleModel.

(** ** Properties as the specification words them *)

Section Wording.
Import NoticeEmbed.

(** The dispatcher's own result lists at least one success. *)
Definition reportsSuccess (cfg : Config) (env : Env) (i : nat)
    (ann : Announcement) : Prop :=
  exists results,
    settles (postToDiscord cfg (embedError env) ann (send env i)) = inr results
    /\ exists r, r ∈ results /\ success r = true.

(** After the cycle the store has gained exactly one record with the
    id of [ann], the one made for it, and the last write of the cycle
    is the store. *)
Definition recordedOnce (cfg : Config) (env : Env) (w : World) (i : nat)
    (ann : Announcement) : Prop :=
  exists news,
    store (runCycle cfg env w).1 = store w ++ news
    /\ filter (fun r => rec_id r = ann_id ann) news = [postedRecordOf env i ann]
    /\ last (writesOf (runCycle cfg env w).2) = Some (store (runCycle cfg env w).1).

(** A failed fetch leaves the state file as it was. *)
Definition fetchFailureKeepsFile (cfg : Config) (env : Env) (w : World) : Prop :=
  (exists message, feed env = inl message) ->
  db_file (runCycle cfg env w).1 = db_file w.

(** On an empty feed the cycle logs, then runs the time-gated backup
    check: a backup is triggered once the cooldown has elapsed. *)
Definition emptyFeedChecksBackup (cfg : Config) (env : Env) (w : World) : Prop :=
  feed env = inr [] ->
  SYNC_INTERVAL_MS <= now env - lastSyncTime w ->
  EvLog LogNoAnnouncementsInFeed ∈ (runCycle cfg env w).2
  /\ EvSyncToGitHub ∈ (runCycle cfg env w).2.

(** The dispatcher raises exactly when some target is configured and
    every outcome is a failure. *)
Definition raisesOnlyWhenAllFail (cfg : Config)
    (builder : Announcement -> option string) (ann : Announcement)
    (sendTo : nat -> nat -> SendBehaviour) : Prop :=
  (exists message, settles (postToDiscord cfg builder ann sendTo) = inl message)
  <-> WEBHOOK_URLS cfg ≠ []
      /\ forall r, r ∈ ps_results (deliver cfg sendTo) -> success r = false.

(** With no target configured the dispatcher returns the empty list. *)
Definition returnsEmptyWithoutTargets (cfg : Config)
    (builder : Announcement -> option string) (ann : Announcement)
    (sendTo : nat -> nat -> SendBehaviour) : Prop :=
  WEBHOOK_URLS cfg = [] ->
  settles (postToDiscord cfg builder ann sendTo) = inr [].

(** With every candidate of the feed [[c3; c2; c1]] unknown and every
    delivery a success, the store gains the records of [c1], [c2],
    [c3], in that order. *)
Definition chronologicalInsertion (cfg : Config) (env : Env) (w : World)
    (c3 c2 c1 : Announcement) : Prop :=
  feed env = inr [c3; c2; c1] ->
  (forall i ann, [c3; c2; c1] !! i = Some ann ->
     (ann_id ann ∉ storeIds w) /\ reportsSuccess cfg env i ann) ->
  rec_id <$> store (runCycle cfg env w).1
  = storeIds w ++ [ann_id c1; ann_id c2; ann_id c3].

End Wording.

(** ** Concrete configurations, feeds and states *)

Definition oneWebhook : Config :=
  {| WEBHOOK_URLS := ["https://discord.com/api/webhooks/11/aa"];
     WEBHOOK_NAMES := ["Campus"];
     GITHUB_TOKEN := true |}.

Definition twoWebhooks : Config :=
  {| WEBHOOK_URLS := ["https://discord.com/api/webhooks/11/aa";
                      "https://discord.com/api/webhooks/22/bb"];
     WEBHOOK_NAMES := ["Campus"];
     GITHUB_TOKEN := true |}.

Definition noWebhook : Config :=
  {| WEBHOOK_URLS := []; WEBHOOK_NAMES := []; GITHUB_TOKEN := true |}.

Definition noticeA : Announcement :=
  {| ann_id := "https://www.bracu.ac.bd/node/101";
     ann_title := "Midterm schedule";
     ann_pubDate := "2025-06-01 09:00:00";
     ann_link := "https://www.bracu.ac.bd/node/101" |}.

Definition noticeB : Announcement :=
  {| ann_id := "https://www.bracu.ac.bd/node/102";
     ann_title := "Library hours";
     ann_pubDate := "2025-06-02 09:00:00";
     ann_link := "https://www.bracu.ac.bd/node/102" |}.

Definition noticeC : Announcement :=
  {| ann_id := "https://www.bracu.ac.bd/node/103";
     ann_title := "Convocation";
     ann_pubDate := "2025-06-03 09:00:00";
     ann_link := "https://www.bracu.ac.bd/node/103" |}.

(** A feed item without a title. *)
Definition untitled : Announcement :=
  {| ann_id := "https://www.bracu.ac.bd/node/104";
     ann_title := "";
     ann_pubDate := "2025-06-04 09:00:00";
     ann_link := "https://www.bracu.ac.bd/node/104" |}.

(** An [EmbedBuilder] that throws, as [setTitle] of discord.js does, on
    a title that is empty or longer than 256 characters (the titles
    used below are ASCII), and builds the embed otherwise. *)
Definition titleCheck (ann : Announcement) : option string :=
  if decide (ann_title ann = "") then Some "Received one or more errors"
  else if (256 <? String.length (ann_title ann))%nat
       then Some "Received one or more errors"
       else None.

Definition isoStamp (i : nat) : string :=
  "2025-06-04T10:00:0" +:+ pretty i +:+ ".000Z".

(** No state file yet. *)
Definition freshWorld : World := {| db_file := None; lastSyncTime := 0 |}.

(** A state file that does not parse. *)
Definition corruptWorld : World :=
  {| db_file := Some (Unparsable "[{"); lastSyncTime := 0 |}.

(** A state file holding [[]]. *)
Definition emptyWorld : World :=
  {| db_file := Some (Parsable (JArray [])); lastSyncTime := 0 |}.

(** A state file holding the record of [noticeA]. *)
Definition postedAWorld : World :=
  {| db_file :=
       Some (Parsable (JArray [{| rec_id := ann_id noticeA;
                                  rec_title := ann_title noticeA;
                                  rec_postedAt := "2025-06-01T10:00:00.000Z" |}]));
     lastSyncTime := 0 |}.

(** Every send fulfils after 200 ms. *)
Definition promptEnv (f : string + list Announcement) : Env :=
  {| feed := f; embedError := titleCheck; send := fun _ _ _ => Resolves 200;
     stamp := isoStamp; now := 0; github_ok := true |}.

(** The same, a day and more after the last backup. *)
Definition nextDayEnv (f : string + list Announcement) : Env :=
  {| feed := f; embedError := titleCheck; send := fun _ _ _ => Resolves 200;
     stamp := isoStamp; now := 90000000; github_ok := true |}.

(** The first attempt hangs past its 10 s timer; the second fulfils
    after 18.5 s, that is 30.5 s after the posting began. *)
Definition slowEnv : Env :=
  {| feed := inr [noticeA]; embedError := titleCheck;
     send := fun _ _ attempt =>
       match attempt with
       | 1%nat => Resolves 60000
       | _ => Resolves 18500
       end;
     stamp := isoStamp; now := 0; github_ok := true |}.

(** Feed [noticeB; noticeA]: Discord accepts [noticeA] (index 1) and
    rejects every send for [noticeB] (index 0). *)
Definition flakyEnv : Env :=
  {| feed := inr [noticeB; noticeA]; embedError := titleCheck;
     send := fun i _ _ =>
       match i with
       | 1%nat => Resolves 200
       | _ => Rejects 150 "503 Service Unavailable"
       end;
     stamp := isoStamp; now := 0; github_ok := true |}.

(** Feed [noticeC; noticeB; noticeA]: every send fulfils after 200 ms,
    except that the first attempt for [noticeB] (index 1) hangs past
    its 10 s timer and the second fulfils after 18.5 s. *)
Definition lateSecondEnv : Env :=
  {| feed := inr [noticeC; noticeB; noticeA]; embedError := titleCheck;
     send := fun i _ attempt =>
       match i, attempt with
       | 1%nat, 1%nat => Resolves 60000
       | 1%nat, _ => Resolves 18500
       | _, _ => Resolves 200
       end;
     stamp := isoStamp; now := 0; github_ok := true |}.

(** Every send is refused, with the attempt number in the message. *)
Definition refusing (w attempt : nat) : SendBehaviour :=
  Rejects 100 ("refused #" +:+ pretty attempt).

(** ** Module initialisation and URL helpers of [notice-embed.js] *)

Module Setup.
Import Stdlib.Strings.Ascii.

(** The environment variables the module reads; [None] is an unset
    variable. *)
Record ProcessEnv := {
  env_WEBHOOK_URLS : option string;
  env_WEBHOOK_NAMES : option string;
  env_GITHUB_TOKEN : option string
}.

(** [s.split(sep)] for a one-character separator. *)
Fixpoint split (sep : Ascii.ascii) (s : string) : list string :=
  match s with
  | EmptyString => [EmptyString]
  | String c rest =>
      if decide (c = sep) then EmptyString :: split sep rest
      else
        match split sep rest with
        | piece :: pieces => String c piece :: pieces
        | [] => [String c EmptyString]
        end
  end.

(** [array[i]] for an index that may be negative: [undefined] out of
    range. *)
Definition at_index {A} (l : list A) (i : Z) : option A :=
  if i <? 0 then None else l !! Z.to_nat i.

(** [s.substring(a, b)]: both ends are clamped to the string and
    swapped when out of order. *)
Definition js_substring (s : string) (a b : Z) : string :=
  let len := Z.of_nat (String.length s) in
  let a' := Z.max 0 (Z.min a len) in
  let b' := Z.max 0 (Z.min b len) in
  String.substring (Z.to_nat (Z.min a' b')) (Z.to_nat (Z.max a' b' - Z.min a' b')) s.

(** An environment variable used as a condition: unset and empty are
    both falsy. *)
Definition truthy (v : option string) : option string :=
  match v with
  | Some EmptyString => None
  | _ => v
  end.

(** [`Server ${n}`]. *)
Definition serverLabel (n : nat) : string := "Server " +:+ pretty n.

(** [process.env.WEBHOOK_URLS ? process.env.WEBHOOK_URLS.split(',') : []]. *)
Definition urlsOf (v : option string) : list string :=
  match truthy v with
  | Some s => split ","%char s
  | None => []
  end.

(** [process.env.WEBHOOK_NAMES ? process.env.WEBHOOK_NAMES.split(',')
     : WEBHOOK_URLS.map((_, index) => `Server ${index + 1}`)]. *)
Definition namesOf (v : option string) (urls : list string) : list string :=
  match truthy v with
  | Some s => split ","%char s
  | None => imap (fun index _ => serverLabel (index + 1)) urls
  end.

(** [while (WEBHOOK_NAMES.length < WEBHOOK_URLS.length)
       WEBHOOK_NAMES.push(`Server ${WEBHOOK_NAMES.length + 1}`)],
    for at most [fuel] iterations. *)
Fixpoint padNames (fuel : nat) (urls names : list string) : list string :=
  match fuel with
  | O => names
  | S fuel' =>
      if (length names <? length urls)%nat
      then padNames fuel' urls (names ++ [serverLabel (length names + 1)])
      else names
  end.

(** The configuration the module ends up with: the loop is given as
    many iterations as there are URLs, which is enough. *)
Definition configOf (penv : ProcessEnv) : Config :=
  let urls := urlsOf (env_WEBHOOK_URLS penv) in
  {| WEBHOOK_URLS := urls;
     WEBHOOK_NAMES :=
       padNames (length urls) urls (namesOf (env_WEBHOOK_NAMES penv) urls);
     GITHUB_TOKEN :=
       match truthy (env_GITHUB_TOKEN penv) with Some _ => true | None => false end |}.

(** [getWebhookParts]: the last two pieces of the URL between
    slashes. *)
Record WebhookParts := {
  wp_id : option string;
  wp_token : option string
}.

Definition getWebhookParts (webhookUrl : string) : WebhookParts :=
  let urlParts := split "/"%char webhookUrl in
  {| wp_id := at_index urlParts (Z.of_nat (length urlParts) - 2);
     wp_token := at_index urlParts (Z.of_nat (length urlParts) - 1) |}.

(** The masked URL that [postToDiscord] prints:
    [url.substring(0, 30) + '...' + url.substring(url.length - 10)]. *)
Definition maskedUrl (url : string) : string :=
  js_substring url 0 30 +:+ "..."
    +:+ js_substring url (Z.of_nat (String.length url) - 10)
          (Z.of_nat (String.length url)).

(** The character [c] occurs in [s]. *)
Fixpoint occurs (c : Ascii.ascii) (s : string) : bool :=
  match s with
  | EmptyString => false
  | String c' rest => if decide (c' = c) then true else occurs c rest
  end.

End Setup.

(** ** The dispatcher's clock in closed form *)

Section TimingModel.
Import NoticeEmbed.

(** How long a send takes to settle. *)
Definition latency (b : SendBehaviour) : Z :=
  match b with
  | Resolves ms => ms
  | Rejects ms _ => ms
  end.

(** The time one target's attempts take: each race, and the backoff
    after a failed attempt that is not the third. *)
Fixpoint elapsedRun (sendTo : nat -> SendBehaviour) (schedule : list nat) : Z :=
  match schedule with
  | [] => 0
  | attempt :: rest =>
      match raceSend attempt (sendTo attempt) with
      | (None, took) => took
      | (Some _, took) =>
          took + (if (attempt <? 3)%nat then backoffDelay attempt else 0)
          + elapsedRun sendTo rest
      end
  end.

(** The time spent on webhook [i]: its attempts and the 1 s pause. *)
Definition elapsedOn (sendTo : nat -> nat -> SendBehaviour) (i : nat) : Z :=
  elapsedRun (sendTo i) (seq 1 3) + 1000.

Definition sumZ (l : list Z) : Z := foldr Z.add 0 l.

End TimingModel.

(** Thirty webhooks, all named by position. *)
Definition thirtyWebhooks : Config :=
  {| WEBHOOK_URLS := replicate 30 "https://discord.com/api/webhooks/11/aa";
     WEBHOOK_NAMES := [];
     GITHUB_TOKEN := true |}.

(** The first two attempts hang past their timers; the third fulfils
    at once. *)
Definition twiceHangingEnv : Env :=
  {| feed := inr [noticeA]; embedError := titleCheck;
     send := fun _ _ attempt =>
       match attempt with
       | 1%nat => Resolves 60000
       | 2%nat => Rejects 25000 "socket hang up"
       | _ => Resolves 0
       end;
     stamp := isoStamp; now := 0; github_ok := true |}.

(** The first attempt is refused, the second fulfils. *)
Definition secondTry (w attempt : nat) : SendBehaviour :=
  match attempt with
  | 1%nat => Rejects 300 "429 Too Many Requests"
  | _ => Resolves 250
  end.

(** A state file holding valid JSON that is not an array. *)
Definition objectWorld : World :=
  {| db_file := Some (Parsable (JOther "{}")); lastSyncTime := 0 |}.

(** ** The cycle of [part_001] in closed form *)

Section Part001Model.

(** The outcome pushed for webhook [i]: its single send fulfils or
    rejects. *)
Definition p1Outcome (cfg : Config) (sendTo : nat -> nat -> SendBehaviour)
    (i : nat) : DeliveryOutcome :=
  match sendTo i 1%nat with
  | Resolves _ =>
      {| success := true; serverName := NoticeEmbed.serverNameOf cfg i;
         error := None |}
  | Rejects _ message =>
      {| success := false; serverName := NoticeEmbed.serverNameOf cfg i;
         error := Some message |}
  end.

Definition p1Results (cfg : Config) (sendTo : nat -> nat -> SendBehaviour)
    : list DeliveryOutcome :=
  p1Outcome cfg sendTo <$> seq 0 (length (WEBHOOK_URLS cfg)).

(** The loop of [postToDiscord] ends in the throw: some webhook is
    configured and every send was rejected. *)
Definition p1Throws (cfg : Config) (sendTo : nat -> nat -> SendBehaviour) : bool :=
  (0 <? length (p1Results cfg sendTo))%nat
  && forallb (fun r => negb (success r)) (p1Results cfg sendTo).

(** What [postToDiscord] throws for the candidate [p], if it throws:
    the error of [EmbedBuilder], or that every webhook failed. *)
Definition p1Thrown (cfg : Config) (env : Env) (p : nat * Announcement)
    : option string :=
  match embedError env p.2 with
  | Some message => Some message
  | None =>
      if p1Throws cfg (send env p.1)
      then Some "Failed to post to all Discord webhooks"
      else None
  end.

(** The loop over the candidates to process, first to last: it stops
    at the first posting that throws. *)
Fixpoint p1Loop (cfg : Config) (env : Env) (l : list (nat * Announcement))
    (st : list PostedRecord * bool)
    : Completion (list PostedRecord * bool) * list Event :=
  match l with
  | [] => (Normal st, [])
  | p :: rest =>
      match p1Thrown cfg env p with
      | Some message => (Thrown message, [EvPostToDiscord p.1 p.2])
      | None =>
          let '(r, events) :=
            p1Loop cfg env rest (st.1 ++ [postedRecordOf env p.1 p.2], true) in
          (r, EvPostToDiscord p.1 p.2 :: events)
      end
  end.

(** The state file is missing or holds an array of records: the
    [loadPosted] and [posted.map] of [part_001] do not throw. *)
Definition p1Loads (w : World) : Prop :=
  db_file w = None \/ exists records, db_file w = Some (Parsable (JArray records)).

End Part001Model.

(** ** [src/unnamed/part_000]: the one-shot scraper *)

Module Part000.

(** A scraped announcement: [{id, heading, publishDate, link}]. *)
Record Scraped := {
  s_id : string;
  s_heading : string;
  s_publishDate : string;
  s_link : string
}.

(** An element of the state file: [{id, heading}]. *)
Record Posted := {
  p_id : string;
  p_heading : string
}.

(** The state file: missing, not parsable, holding an array of
    records, or holding some other JSON value. *)
Inductive StateFile :=
  | Missing
  | Garbled (raw : string)
  | Holding (records : list Posted)
  | NotArray (text : string).

(** What the run does to the outside: a POST issued to the webhook, a
    write of the state file, a line on the console. *)
Inductive Effect :=
  | Sent (ann : Scraped)
  | Saved (records : list Posted)
  | LoggedPosted (heading id : string)
  | LoggedNoNew.

(** The outside of one run: what the scrape returns (or the message it
    throws), and for the candidate at feed index [i] whether the
    [fetch] of [postToDiscord] fulfils, with the HTTP status of the
    response, or rejects. *)
Record Outside := {
  scrape : string + list Scraped;
  webhook : nat -> string + nat
}.

(** [loadPosted] followed by [posted.map]: [JSON.parse] throws on a
    garbled file, [posted.map] on a value that is not an array. *)
Definition loadPosted (f : StateFile) : string + list Posted :=
  match f with
  | Missing => inr []
  | Garbled _ => inl "Unexpected token in JSON"
  | Holding records => inr records
  | NotArray _ => inl "posted.map is not a function"
  end.

(** [{ id: ann.id, heading: ann.heading }]. *)
Definition recordOf (ann : Scraped) : Posted :=
  {| p_id := s_id ann; p_heading := s_heading ann |}.

(** [postToDiscord]: the response is awaited and not looked at. *)
Definition postToDiscord (o : Outside) (i : nat) : string + unit :=
  match webhook o i with
  | inl message => inl message
  | inr _ => inr tt
  end.

(** [for (const ann of announcements)], from index [i] on: the
    variables [posted] and [newPosted] at the end, or the message
    thrown, with the effects so far. *)
Fixpoint postingLoop (o : Outside) (postedIds : gset string)
    (announcements : list Scraped) (i : nat) (posted : list Posted)
    (newPosted : bool) : (string + list Posted * bool) * list Effect :=
  match announcements with
  | [] => (inr (posted, newPosted), [])
  | ann :: rest =>
      if decide (s_id ann ∈ postedIds)
      then postingLoop o postedIds rest (S i) posted newPosted
      else
        match postToDiscord o i with
        | inl message => (inl message, [Sent ann])
        | inr _ =>
            let '(r, effects) :=
              postingLoop o postedIds rest (S i) (posted ++ [recordOf ann])
                true in
            (r, Sent ann :: LoggedPosted (s_heading ann) (s_id ann) :: effects)
        end
  end.

(** [main]: nothing is caught. The result is the message of the
    rejection that ends the process, if any, the state file left, and
    the effects. *)
Definition main (o : Outside) (f : StateFile)
    : option string * StateFile * list Effect :=
  match loadPosted f with
  | inl message => (Some message, f, [])
  | inr posted =>
      let postedIds : gset string := list_to_set (p_id <$> posted) in
      match scrape o with
      | inl message => (Some message, f, [])
      | inr announcements =>
          match postingLoop o postedIds announcements 0 posted false with
          | (inl message, effects) => (Some message, f, effects)
          | (inr (posted', true), effects) =>
              (None, Holding posted', effects ++ [Saved posted'])
          | (inr (_, false), effects) => (None, f, effects ++ [LoggedNoNew])
          end
      end
  end.

(** The records of a state file. *)
Definition recordsOf (f : StateFile) : list Posted :=
  match f with
  | Holding records => records
  | _ => []
  end.

Definition sentOf (effects : list Effect) : list Scraped :=
  omap (fun e => match e with Sent ann => Some ann | _ => None end) effects.

Definition savedOf (effects : list Effect) : list (list Posted) :=
  omap (fun e => match e with Saved records => Some records | _ => None end)
       effects.

(** Two scraped announcements and a webhook that answers every post
    with status 204, or with 404. *)
Definition scrapedA : Scraped :=
  {| s_id := "20517"; s_heading := "Midterm schedule";
     s_publishDate := "June 1, 2025";
     s_link := "https://www.bracu.ac.bd/news/midterm-schedule" |}.

Definition scrapedB : Scraped :=
  {| s_id := "20518"; s_heading := "Library hours";
     s_publishDate := "June 2, 2025";
     s_link := "https://www.bracu.ac.bd/news/library-hours" |}.

Definition answering (status : nat) (l : list Scraped) : Outside :=
  {| scrape := inr l; webhook := fun _ => inr status |}.

(** The network fails on the post for feed index 1. *)
Definition failingAtOne (l : list Scraped) : Outside :=
  {| scrape := inr l;
     webhook := fun i => match i with
                         | 1%nat => inl "fetch failed"
                         | _ => inr 204%nat
                         end |}.

End Part000.

(** ** The dispatcher's retry loop *)

Section Dispatcher.
Import NoticeEmbed.

Lemma retryLoop_attempts sendTo schedule st :
  rs_attempts (retryLoop sendTo schedule st)
  = rs_attempts st ++ attemptsRun sendTo schedule.
Proof.
  revert st. induction schedule as [|k rest IH]; intros st; simpl.
  - by rewrite app_nil_r.
  - unfold succeedsAt. destruct (raceSend k (sendTo k)) as [[m|] took]; simpl.
    + rewrite IH. simpl. by rewrite <- app_assoc.
    + done.
Qed.

Lemma retryLoop_success sendTo schedule st :
  rs_success st = false ->
  rs_success (retryLoop sendTo schedule st) = existsb (succeedsAt sendTo) schedule.
Proof.
  revert st. induction schedule as [|k rest IH]; intros st Hst; simpl; [done|].
  unfold succeedsAt. destruct (raceSend k (sendTo k)) as [[m|] took]; simpl.
  - by rewrite IH.
  - done.
Qed.

Lemma retryLoop_lastError sendTo schedule st :
  rs_lastError (retryLoop sendTo schedule st)
  = lastErrorRun sendTo schedule (rs_lastError st).
Proof.
  revert st. induction schedule as [|k rest IH]; intros st; simpl; [done|].
  destruct (raceSend k (sendTo k)) as [[m|] took]; simpl.
  - by rewrite IH.
  - done.
Qed.

Lemma attemptsRun_prefix sendTo schedule :
  attemptsRun sendTo schedule `prefix_of` schedule.
Proof.
  induction schedule as [|k rest IH]; simpl; [done|].
  destruct (succeedsAt sendTo k).
  - by apply prefix_cons, prefix_nil.
  - by apply prefix_cons.
Qed.

Lemma attemptsRun_nonempty sendTo schedule :
  schedule ≠ [] -> attemptsRun sendTo schedule ≠ [].
Proof. destruct schedule as [|k rest]; simpl; [done|]. by destruct (succeedsAt _ _). Qed.

Lemma attemptsRun_all_fail sendTo schedule :
  existsb (succeedsAt sendTo) schedule = false ->
  attemptsRun sendTo schedule = schedule.
Proof.
  induction schedule as [|k rest IH]; simpl; [done|].
  destruct (succeedsAt sendTo k); simpl; [done|]. intros H. by rewrite IH.
Qed.

Lemma webhookStep_results cfg sendTo i st :
  ps_results (webhookStep cfg sendTo i st)
  = ps_results st ++ [outcomeOf cfg sendTo i].
Proof.
  unfold webhookStep, outcomeOf. cbn [ps_results].
  rewrite retryLoop_success by done. rewrite retryLoop_lastError. done.
Qed.

Lemma webhookStep_attempts cfg sendTo i st :
  ps_attempts (webhookStep cfg sendTo i st)
  = ps_attempts st ++ (pair i <$> attemptsRun (sendTo i) (seq 1 3)).
Proof.
  unfold webhookStep. cbn [ps_attempts]. by rewrite retryLoop_attempts.
Qed.

Lemma webhookLoop_results cfg sendTo indices st :
  ps_results (webhookLoop cfg sendTo indices st)
  = ps_results st ++ (outcomeOf cfg sendTo <$> indices).
Proof.
  revert st. induction indices as [|i rest IH]; intros st; simpl.
  - by rewrite app_nil_r.
  - rewrite IH, webhookStep_results. by rewrite <- app_assoc.
Qed.

Lemma webhookLoop_attempts cfg sendTo indices st :
  ps_attempts (webhookLoop cfg sendTo indices st)
  = ps_attempts st
    ++ (indices ≫= fun i => pair i <$> attemptsRun (sendTo i) (seq 1 3)).
Proof.
  revert st. induction indices as [|i rest IH]; intros st; simpl.
  - by rewrite app_nil_r.
  - rewrite IH, webhookStep_attempts. by rewrite <- app_assoc.
Qed.

Lemma deliver_results cfg sendTo :
  ps_results (deliver cfg sendTo)
  = outcomeOf cfg sendTo <$> seq 0 (length (WEBHOOK_URLS cfg)).
Proof. unfold deliver. by rewrite webhookLoop_results. Qed.

Lemma deliver_results_length cfg sendTo :
  length (ps_results (deliver cfg sendTo)) = length (WEBHOOK_URLS cfg).
Proof. by rewrite deliver_results, length_fmap, length_seq. Qed.

Lemma deliver_results_lookup cfg sendTo w :
  (w < length (WEBHOOK_URLS cfg))%nat ->
  ps_results (deliver cfg sendTo) !! w = Some (outcomeOf cfg sendTo w).
Proof.
  intros Hw. rewrite deliver_results, list_lookup_fmap, lookup_seq_lt by done.
  done.
Qed.

Lemma triesOn_same (w : nat) (l : list nat) : triesOn w (pair w <$> l) = l.
Proof.
  unfold triesOn. induction l as [|x l IHl]; [done|].
  rewrite fmap_cons, filter_cons_True by done. rewrite fmap_cons. by f_equal.
Qed.

Lemma triesOn_other (w i : nat) (l : list nat) :
  i ≠ w -> triesOn w (pair i <$> l) = [].
Proof.
  intros Hne. unfold triesOn. induction l as [|x l IHl]; [done|].
  rewrite fmap_cons, filter_cons_False by done. done.
Qed.

Lemma triesOn_app w (l1 l2 : list (nat * nat)) :
  triesOn w (l1 ++ l2) = triesOn w l1 ++ triesOn w l2.
Proof. unfold triesOn. by rewrite filter_app, fmap_app. Qed.

Lemma triesOn_bind (f : nat -> list nat) w indices :
  NoDup indices ->
  triesOn w (indices ≫= fun i => pair i <$> f i)
  = if decide (w ∈ indices) then f w else [].
Proof.
  induction indices as [|i rest IH]; intros Hnd.
  - rewrite decide_False; [done|]. apply not_elem_of_nil.
  - apply NoDup_cons in Hnd as [Hi Hnd]. cbn [mbind list_bind].
    rewrite triesOn_app, IH by done.
    destruct (decide (i = w)) as [->|Hne].
    + rewrite triesOn_same, (decide_False (P := w ∈ rest)) by done.
      rewrite decide_True by (apply elem_of_cons; by left). by rewrite app_nil_r.
    + rewrite triesOn_other by done. simpl.
      destruct (decide (w ∈ rest)) as [Hin|Hin].
      * rewrite decide_True; [done|]. apply elem_of_cons; by right.
      * rewrite decide_False; [done|]. intros [->|?]%elem_of_cons; done.
Qed.

Lemma deliver_tries cfg sendTo w :
  triesOn w (ps_attempts (deliver cfg sendTo))
  = if decide (w < length (WEBHOOK_URLS cfg))%nat
    then attemptsRun (sendTo w) (seq 1 3) else [].
Proof.
  unfold deliver. rewrite webhookLoop_attempts. cbn [ps_attempts app].
  rewrite (triesOn_bind (fun i => attemptsRun (sendTo i) (seq 1 3)))
    by apply NoDup_seq.
  destruct (decide (w < _)%nat) as [Hw|Hw].
  - rewrite decide_True; [done|]. apply elem_of_seq. lia.
  - rewrite decide_False; [done|]. rewrite elem_of_seq. lia.
Qed.

Lemma postToDiscord_built cfg (builder : Announcement -> option string)
    announcement sendTo :
  builder announcement = None ->
  postToDiscord cfg builder announcement sendTo = postEmbed cfg sendTo.
Proof. intros H. unfold postToDiscord. by rewrite H. Qed.

Lemma postToDiscord_rejected cfg (builder : Announcement -> option string)
    announcement sendTo message :
  builder announcement = Some message ->
  postToDiscord cfg builder announcement sendTo
  = {| settles := inl message; settledAt := 0; attemptsMade := [] |}.
Proof. intros H. unfold postToDiscord. by rewrite H. Qed.

Lemma outcomeOf_success cfg sendTo i :
  success (outcomeOf cfg sendTo i) = existsb (succeedsAt (sendTo i)) (seq 1 3).
Proof. unfold outcomeOf. by destruct (existsb _ _). Qed.

(** Every outcome collected is a failure exactly when every attempt on
    every configured webhook loses or rejects. *)
Lemma all_outcomes_fail cfg sendTo :
  (forall r, r ∈ ps_results (deliver cfg sendTo) -> success r = false)
  <-> forall w k, (w < length (WEBHOOK_URLS cfg))%nat -> (1 <= k <= 3)%nat ->
                  succeedsAt (sendTo w) k = false.
Proof.
  rewrite deliver_results. split.
  - intros Hall w k Hw Hk.
    assert (success (outcomeOf cfg sendTo w) = false) as Hout.
    { apply Hall, list_elem_of_fmap. exists w. split; [done|].
      apply elem_of_seq. lia. }
    rewrite outcomeOf_success in Hout. simpl in Hout.
    apply orb_false_iff in Hout as [H1 Hout].
    apply orb_false_iff in Hout as [H2 Hout].
    apply orb_false_iff in Hout as [H3 _].
    destruct k as [|[|[|[|k]]]]; try lia; done.
  - intros Hall r (w & -> & Hw%elem_of_seq)%list_elem_of_fmap.
    rewrite outcomeOf_success. simpl.
    rewrite !Hall by lia. done.
Qed.

End Dispatcher.

(** ** The reconciliation cycle, step by step *)

Section Cycle.
Import NoticeEmbed.

Ltac step_m :=
  unfold mbind, M_bind, mret, M_ret, bind, ret, throw, try_catch, log, emit,
    get_world, put_world; simpl.

Lemma writeDb_run records w :
  writeDb records w
  = (Normal tt,
     {| db_file := Some (Parsable (JArray records)); lastSyncTime := lastSyncTime w |},
     [EvWriteFile records]).
Proof. reflexivity. Qed.

Lemma loadPosted_run w :
  loadPosted w = (Normal (loadedValue w), loadWorld w, loadEvents w).
Proof.
  unfold loadPosted, loadedValue, loadWorld, loadEvents.
  destruct w as [[[raw|v]|] t]; reflexivity.
Qed.

Lemma loadWorld_exists w : exists c, db_file (loadWorld w) = Some (Parsable c).
Proof. unfold loadWorld. destruct w as [[[raw|v]|] t]; simpl; eauto. Qed.

Lemma loadedValue_records w :
  holdsRecords w -> loadedValue w = JArray (store w).
Proof.
  unfold holdsRecords, loadedValue, store. intros H.
  destruct w as [[[raw|[rs|text]]|] t]; simpl in *; try done.
  by destruct (H text).
Qed.

Lemma loadWorld_store w : store (loadWorld w) = store w.
Proof. unfold loadWorld, store. by destruct w as [[[raw|[rs|text]]|] t]. Qed.

Lemma loadWorld_lastSyncTime w : lastSyncTime (loadWorld w) = lastSyncTime w.
Proof. unfold loadWorld. by destruct w as [[[raw|v]|] t]. Qed.

Lemma syncToGitHub_run cfg env w c :
  db_file w = Some c ->
  syncToGitHub cfg env w
  = (Normal (GITHUB_TOKEN cfg && github_ok env), w, [EvSyncToGitHub]).
Proof.
  intros Hc. unfold syncToGitHub. step_m.
  destruct (GITHUB_TOKEN cfg); simpl; [|done]. by rewrite Hc.
Qed.

Lemma syncIfNeeded_run cfg env w c :
  db_file w = Some c ->
  syncIfNeeded cfg env w
  = (Normal tt, idleSyncWorld cfg env w, idleSyncEvents env w).
Proof.
  intros Hc. unfold syncIfNeeded, idleSyncWorld, idleSyncEvents. step_m.
  destruct (SYNC_INTERVAL_MS <=? now env - lastSyncTime w); [|done].
  rewrite (syncToGitHub_run _ _ _ c) by done.
  by destruct (GITHUB_TOKEN cfg && github_ok env).
Qed.

Lemma confirmedOf_cons cfg env i ann rest :
  confirmedOf cfg env ((i, ann) :: rest)
  = if discordSuccess cfg env i ann
    then (i, ann) :: confirmedOf cfg env rest
    else confirmedOf cfg env rest.
Proof.
  unfold confirmedOf. destruct (discordSuccess cfg env i ann) eqn:E.
  - by rewrite filter_cons_True.
  - rewrite filter_cons_False; [done|]. simpl. by rewrite E.
Qed.

Lemma processAnnouncement_run cfg env ids i ann st w :
  processAnnouncement cfg env ids i ann st w
  = if decide (ann_id ann ∈ ids) then (Normal st, w, [])
    else (Normal (loopAdvance env (confirmedOf cfg env [(i, ann)]) st), w,
          eventsFor cfg env (i, ann)).
Proof.
  unfold processAnnouncement. case_decide; [done|].
  rewrite confirmedOf_cons.
  unfold eventsFor, postingLog, discordSuccess, loopAdvance.
  step_m.
  destruct (racePosting _) as [message|postingResult]; simpl; [done|].
  by destruct (existsb success postingResult).
Qed.

Lemma toProcess_snoc ids (l : list Announcement) ann :
  toProcess ids (l ++ [ann])
  = (if decide (ann_id ann ∈ ids) then [] else [(length l, ann)])
    ++ toProcess ids l.
Proof.
  unfold toProcess. rewrite imap_app. cbn [imap]. rewrite reverse_snoc.
  cbn [compose]. rewrite Nat.add_0_r. case_decide.
  - by rewrite filter_cons_False by (simpl; tauto).
  - by rewrite filter_cons_True.
Qed.

Lemma loopAdvance_app env l1 l2 st :
  loopAdvance env (l1 ++ l2) st = loopAdvance env l2 (loopAdvance env l1 st).
Proof. unfold loopAdvance. by rewrite foldl_app. Qed.

Lemma confirmedOf_app cfg env l1 l2 :
  confirmedOf cfg env (l1 ++ l2) = confirmedOf cfg env l1 ++ confirmedOf cfg env l2.
Proof. unfold confirmedOf. by rewrite filter_app. Qed.

(** The loop from index [k - 1] down to [0] never throws, leaves the
    state alone, and processes the unknown candidates among the first
    [k], last first. *)
Lemma candidateLoop_run cfg env ids announcements k st w :
  (k <= length announcements)%nat ->
  candidateLoop cfg env ids announcements k st w
  = (Normal (loopAdvance env
               (confirmedOf cfg env (toProcess ids (take k announcements))) st),
     w,
     toProcess ids (take k announcements) ≫= eventsFor cfg env).
Proof.
  revert st. induction k as [|i IH]; intros st Hk.
  - by rewrite take_0.
  - destruct (lookup_lt_is_Some_2 announcements i) as [ann Hann]; [lia|].
    cbn [candidateLoop]. rewrite Hann.
    rewrite (take_S_r _ _ _ Hann), toProcess_snoc.
    rewrite length_take, Nat.min_l by lia.
    unfold mbind at 1, M_bind, bind.
    rewrite processAnnouncement_run, confirmedOf_app, loopAdvance_app.
    case_decide.
    + rewrite IH by lia. done.
    + rewrite IH by lia. done.
Qed.

Lemma loopAdvance_successful env l st :
  successfulAnnouncements (loopAdvance env l st)
  = successfulAnnouncements st ++ ((fun p => postedRecordOf env p.1 p.2) <$> l).
Proof.
  revert st. induction l as [|p l IH]; intros st; simpl.
  - by rewrite app_nil_r.
  - unfold loopAdvance in *. simpl. rewrite IH. simpl. by rewrite <- app_assoc.
Qed.

Lemma loopAdvance_newPosted env l st :
  newPosted (loopAdvance env l st)
  = match l with [] => newPosted st | _ => true end.
Proof.
  destruct l as [|p l]; [done|]. unfold loopAdvance. simpl.
  generalize (successfulAnnouncements st ++ [postedRecordOf env p.1 p.2]).
  generalize (S (newCount st)). induction l as [|q l IH]; intros n rs; [done|].
  simpl. apply IH.
Qed.

(** A state file that holds something other than an array: [posted.map]
    throws before the feed is even fetched. *)
Lemma runCycle_not_an_array cfg env w text :
  db_file w = Some (Parsable (JOther text)) ->
  runCycle cfg env w
  = (w, [EvLog (LogErrorInMain (mapTypeError text))]).
Proof.
  intros H. unfold runCycle, main, mainBody, try_catch.
  unfold mbind, M_bind, bind. rewrite loadPosted_run.
  unfold loadedValue, loadWorld, loadEvents. rewrite H. reflexivity.
Qed.

Lemma runCycle_fetch_error cfg env w message :
  holdsRecords w -> feed env = inl message ->
  runCycle cfg env w
  = (loadWorld w, loadEvents w ++ [EvLog (LogErrorInMain message)]).
Proof.
  intros Hw Hfeed. unfold runCycle, main, mainBody, try_catch.
  unfold mbind, M_bind, bind. rewrite loadPosted_run, loadedValue_records by done.
  rewrite Hfeed. unfold throw, log, emit. simpl.
  by rewrite ?app_nil_r, <- ?app_assoc.
Qed.

Lemma runCycle_empty_feed cfg env w :
  holdsRecords w -> feed env = inr [] ->
  runCycle cfg env w
  = (loadWorld w, loadEvents w ++ [EvLog LogNoAnnouncementsInFeed]).
Proof.
  intros Hw Hfeed. unfold runCycle, main, mainBody, try_catch.
  unfold mbind, M_bind, bind. rewrite loadPosted_run, loadedValue_records by done.
  rewrite Hfeed. unfold throw, log, emit. simpl.
  by rewrite ?app_nil_r, <- ?app_assoc.
Qed.

(** A cycle over a non-empty feed, in closed form. *)
Lemma runCycle_candidates cfg env w announcements :
  holdsRecords w -> feed env = inr announcements -> announcements ≠ [] ->
  runCycle cfg env w
  = let news := newRecords cfg env (knownIds w) announcements in
    let processed := toProcess (knownIds w) announcements ≫= eventsFor cfg env in
    match news with
    | [] =>
        (idleSyncWorld cfg env (loadWorld w),
         loadEvents w ++ processed
           ++ [EvLog LogNoNewAnnouncements] ++ idleSyncEvents env (loadWorld w))
    | _ :: _ =>
        ({| db_file := Some (Parsable (JArray (store w ++ news)));
            lastSyncTime := lastSyncTime w |},
         loadEvents w ++ processed
           ++ [EvWriteFile (store w ++ news);
               EvLog (LogUpdatedDatabase (length news));
               EvSyncToGitHub])
    end.
Proof.
  intros Hw Hfeed Hne. unfold runCycle, main, mainBody, try_catch.
  unfold mbind at 1, M_bind, bind. rewrite loadPosted_run, loadedValue_records by done.
  rewrite Hfeed. rewrite decide_False by (by destruct announcements).
  unfold mbind at 1. rewrite candidateLoop_run by done.
  rewrite firstn_all. fold (storeIds w). fold (knownIds w).
  rewrite loopAdvance_successful, loopAdvance_newPosted. cbn [initialLoopState
    successfulAnnouncements newPosted app].
  fold (newRecords cfg env (knownIds w) announcements).
  unfold newRecords at 1 2. 
  destruct (confirmedOf cfg env (toProcess (knownIds w) announcements))
    as [|p confirmed] eqn:Hconf.
  - cbn [fmap list_fmap length Nat.ltb Nat.leb]. unfold newRecords. rewrite Hconf.
    cbn [fmap list_fmap]. unfold mbind, M_bind, bind, log, emit.
    destruct (loadWorld_exists w) as [c Hc].
    rewrite (syncIfNeeded_run _ _ _ _ Hc). reflexivity.
  - cbn [fmap list_fmap length Nat.ltb Nat.leb]. unfold newRecords. rewrite Hconf.
    cbn [fmap list_fmap]. unfold mbind, M_bind, bind, log, emit, savePosted.
    rewrite writeDb_run.
    erewrite syncToGitHub_run by reflexivity. unfold ret. simpl.
    rewrite loadWorld_lastSyncTime. rewrite ?app_nil_r, <- ?app_assoc.
    reflexivity.
Qed.

End Cycle.

(** ** Reading effect lists *)

Section Effects.
Import NoticeEmbed.

Lemma dispatchesOf_app e1 e2 :
  dispatchesOf (e1 ++ e2) = dispatchesOf e1 ++ dispatchesOf e2.
Proof. apply omap_app. Qed.

Lemma writesOf_app e1 e2 : writesOf (e1 ++ e2) = writesOf e1 ++ writesOf e2.
Proof. apply omap_app. Qed.

Lemma syncsOf_app e1 e2 : syncsOf (e1 ++ e2) = (syncsOf e1 + syncsOf e2)%nat.
Proof. unfold syncsOf. by rewrite filter_app, length_app. Qed.

Lemma dispatchesOf_loadEvents w : dispatchesOf (loadEvents w) = [].
Proof. unfold loadEvents. by destruct w as [[[raw|v]|] t]. Qed.

Lemma syncsOf_loadEvents w : syncsOf (loadEvents w) = 0%nat.
Proof. unfold loadEvents. by destruct w as [[[raw|v]|] t]. Qed.

Lemma writesOf_loadEvents w :
  writesOf (loadEvents w)
  = match db_file w with Some (Parsable _) => [] | _ => [[]] end.
Proof. unfold loadEvents. by destruct w as [[[raw|v]|] t]. Qed.

Lemma dispatchesOf_idleSync env w : dispatchesOf (idleSyncEvents env w) = [].
Proof. unfold idleSyncEvents. by destruct (_ <=? _). Qed.

Lemma writesOf_idleSync env w : writesOf (idleSyncEvents env w) = [].
Proof. unfold idleSyncEvents. by destruct (_ <=? _). Qed.

Lemma dispatchesOf_processed cfg env (l : list (nat * Announcement)) :
  dispatchesOf (l ≫= eventsFor cfg env) = l.
Proof.
  induction l as [|[i ann] l IH]; [done|].
  cbn [mbind list_bind]. rewrite dispatchesOf_app, IH. done.
Qed.

Lemma writesOf_processed cfg env (l : list (nat * Announcement)) :
  writesOf (l ≫= eventsFor cfg env) = [].
Proof.
  induction l as [|[i ann] l IH]; [done|].
  cbn [mbind list_bind]. rewrite writesOf_app, IH. done.
Qed.

Lemma syncsOf_processed cfg env (l : list (nat * Announcement)) :
  syncsOf (l ≫= eventsFor cfg env) = 0%nat.
Proof.
  induction l as [|[i ann] l IH]; [done|].
  cbn [mbind list_bind]. rewrite syncsOf_app, IH. done.
Qed.

Lemma db_file_idleSync cfg env w :
  db_file (idleSyncWorld cfg env w) = db_file w.
Proof.
  unfold idleSyncWorld. destruct (_ <=? _); [|done]. by destruct (_ && _).
Qed.

Lemma store_idleSync cfg env w : store (idleSyncWorld cfg env w) = store w.
Proof. unfold store. by rewrite db_file_idleSync. Qed.

Lemma elem_of_knownIds w x : x ∈ knownIds w <-> x ∈ storeIds w.
Proof. unfold knownIds. apply elem_of_list_to_set. Qed.

(** The candidates of a feed, each with its index. *)
Lemma fmap_indexed {A B} (f : nat * A -> B) (g : A -> B) (l : list A) :
  (forall i a, f (i, a) = g a) -> f <$> imap pair l = g <$> l.
Proof.
  intros H. rewrite fmap_imap, <- imap_const. apply imap_ext.
  intros i a _. apply H.
Qed.

Lemma elem_of_indexed (announcements : list Announcement) i ann :
  (i, ann) ∈ reverse (imap pair announcements) <-> announcements !! i = Some ann.
Proof.
  rewrite elem_of_reverse, elem_of_lookup_imap. split.
  - intros (j & a & [= -> ->] & H). done.
  - intros H. eauto.
Qed.

Lemma NoDup_indexed (announcements : list Announcement) :
  NoDup (reverse (imap pair announcements)).
Proof.
  rewrite reverse_Permutation. apply NoDup_alt. intros j1 j2 [i ann] H1 H2.
  rewrite list_lookup_imap in H1, H2.
  destruct (announcements !! j1) eqn:E1; [|done].
  destruct (announcements !! j2) eqn:E2; [|done].
  simpl in *. congruence.
Qed.

Lemma elem_of_toProcess ids (announcements : list Announcement) i ann :
  (i, ann) ∈ toProcess ids announcements
  <-> announcements !! i = Some ann /\ ann_id ann ∉ ids.
Proof.
  unfold toProcess. rewrite list_elem_of_filter, elem_of_indexed. simpl. tauto.
Qed.

Lemma NoDup_toProcess ids (announcements : list Announcement) :
  NoDup (toProcess ids announcements).
Proof. apply NoDup_filter, NoDup_indexed. Qed.

Lemma toProcess_all_known ids (announcements : list Announcement) :
  (forall ann, ann ∈ announcements -> ann_id ann ∈ ids) ->
  toProcess ids announcements = [].
Proof.
  intros H. apply elem_of_nil_inv. intros [i ann] [Hl Hi]%elem_of_toProcess.
  apply Hi, H. by eapply list_elem_of_lookup_2.
Qed.

Lemma filter_all {A} (P : A -> Prop) `{forall x, Decision (P x)} (l : list A) :
  (forall x, x ∈ l -> P x) -> filter P l = l.
Proof.
  induction l as [|x l IH]; intros Hl; [done|].
  rewrite filter_cons_True by (apply Hl, elem_of_cons; by left).
  f_equal. apply IH. intros y Hy. apply Hl, elem_of_cons. by right.
Qed.

Lemma filter_only {A} (P : A -> Prop) `{forall x, Decision (P x)}
    (l : list A) (x : A) :
  NoDup l -> x ∈ l -> P x -> (forall y, y ∈ l -> P y -> y = x) ->
  filter P l = [x].
Proof.
  induction l as [|y l IH]; intros Hnd Hx HP Huniq.
  - by apply elem_of_nil in Hx.
  - apply NoDup_cons in Hnd as [Hy Hnd].
    apply elem_of_cons in Hx as [->|Hx].
    + rewrite filter_cons_True by done. f_equal.
      apply elem_of_nil_inv. intros z [HPz Hz]%list_elem_of_filter.
      assert (z = y) as -> by (apply Huniq; [apply elem_of_cons; by right|done]).
      done.
    + rewrite filter_cons_False.
      * apply IH; try done. intros z Hz. apply Huniq, elem_of_cons. by right.
      * intros HPy. assert (y = x) as -> by (apply Huniq; [apply elem_of_cons; by left|done]).
        done.
Qed.

Lemma toProcess_all_unknown ids (announcements : list Announcement) :
  (forall ann, ann ∈ announcements -> ann_id ann ∉ ids) ->
  toProcess ids announcements = reverse (imap pair announcements).
Proof.
  intros H. unfold toProcess. apply filter_all.
  intros [i ann] Hl%elem_of_indexed. simpl. apply H.
  by eapply list_elem_of_lookup_2.
Qed.

End Effects.

(** ** What a cycle leaves behind *)

Section Summary.
Import NoticeEmbed.

Lemma file_shape w :
  (exists text, db_file w = Some (Parsable (JOther text))) \/ holdsRecords w.
Proof.
  unfold holdsRecords. destruct w as [[[raw|[rs|text]]|] t]; simpl; eauto.
Qed.

Lemma toProcess_nil ids : toProcess ids [] = [].
Proof. done. Qed.

Lemma newRecords_nil cfg env ids : newRecords cfg env ids [] = [].
Proof. done. Qed.

(** A cycle whose fetch succeeds, on a state file that holds records:
    the dispatches, the store, the writes and the file it leaves. *)
Lemma cycle_summary cfg env w announcements :
  holdsRecords w -> feed env = inr announcements ->
  let news := newRecords cfg env (knownIds w) announcements in
  let w' := (runCycle cfg env w).1 in
  let events := (runCycle cfg env w).2 in
  dispatchesOf events = toProcess (knownIds w) announcements
  /\ store w' = store w ++ news
  /\ writesOf events
     = writesOf (loadEvents w)
       ++ match news with [] => [] | _ => [store w ++ news] end
  /\ (news ≠ [] -> db_file w' = Some (Parsable (JArray (store w ++ news))))
  /\ (news = [] -> db_file w' = db_file (loadWorld w)).
Proof.
  intros Hw Hfeed news w' events. subst news w' events.
  destruct announcements as [|a l].
  - rewrite runCycle_empty_feed by done. cbn [fst snd].
    rewrite dispatchesOf_app, writesOf_app, dispatchesOf_loadEvents,
      loadWorld_store, newRecords_nil, !app_nil_r. done.
  - rewrite (runCycle_candidates _ _ _ (a :: l)) by done. cbv zeta.
    destruct (newRecords cfg env (knownIds w) (a :: l)) as [|r news] eqn:Hnews;
      cbn [fst snd].
    + rewrite !dispatchesOf_app, !writesOf_app, dispatchesOf_loadEvents,
        dispatchesOf_processed, writesOf_processed, dispatchesOf_idleSync,
        writesOf_idleSync, store_idleSync, loadWorld_store, db_file_idleSync,
        !app_nil_r.
      done.
    + rewrite !dispatchesOf_app, !writesOf_app, dispatchesOf_loadEvents,
        dispatchesOf_processed, writesOf_processed.
      cbn. rewrite app_nil_r. done.
Qed.

(** Without a successful fetch nothing is dispatched and the store
    keeps its records. *)
Lemma cycle_without_feed cfg env w :
  ~ holdsRecords w \/ (exists message, feed env = inl message) ->
  dispatchesOf (runCycle cfg env w).2 = []
  /\ store (runCycle cfg env w).1 = store w
  /\ writesOf (runCycle cfg env w).2
     = match db_file w with
       | Some (Parsable _) => []
       | _ => [[]]
       end
  /\ db_file (runCycle cfg env w).1 = db_file (loadWorld w).
Proof.
  intros H. destruct (file_shape w) as [[text Hw]|Hw].
  - rewrite (runCycle_not_an_array _ _ _ text) by done. cbn [fst snd].
    unfold loadWorld. rewrite Hw. done.
  - destruct H as [H|[message Hfeed]]; [done|].
    rewrite (runCycle_fetch_error _ _ _ message) by done. cbn [fst snd].
    rewrite dispatchesOf_app, writesOf_app, dispatchesOf_loadEvents,
      writesOf_loadEvents, loadWorld_store, !app_nil_r. done.
Qed.

(** After any cycle the state file exists and parses. *)
Lemma runCycle_file_parses cfg env w :
  exists v, db_file (runCycle cfg env w).1 = Some (Parsable v).
Proof.
  destruct (file_shape w) as [[text Hw]|Hw].
  - rewrite (runCycle_not_an_array _ _ _ text) by done. eauto.
  - destruct (feed env) as [message|announcements] eqn:Hfeed.
    + destruct (cycle_without_feed cfg env w) as (_ & _ & _ & ->); [eauto|].
      apply loadWorld_exists.
    + destruct (cycle_summary cfg env w announcements Hw Hfeed)
        as (_ & _ & _ & Hsave & Hidle).
      destruct (newRecords cfg env (knownIds w) announcements) eqn:Hnews.
      * rewrite Hidle by done. apply loadWorld_exists.
      * rewrite Hsave by done. eauto.
Qed.

End Summary.

(** ** The dispatcher: retry ceiling and when it throws *)

Section DispatcherClaims.
Import NoticeEmbed.

Lemma all_three_fail sendTo m1 m2 m3 :
  (raceSend 1 (sendTo 1%nat)).1 = Some m1 ->
  (raceSend 2 (sendTo 2%nat)).1 = Some m2 ->
  (raceSend 3 (sendTo 3%nat)).1 = Some m3 ->
  existsb (succeedsAt sendTo) (seq 1 3) = false
  /\ lastErrorRun sendTo (seq 1 3) None = Some m3.
Proof.
  intros H1 H2 H3. unfold succeedsAt. simpl. by rewrite H1, H2, H3.
Qed.

(** C6. Each configured target is attempted at most three times, with
    attempt numbers 1, 2, 3 in order, and gets one slot in the result
    list of the loop. Once the embed is built, each configured target
    is attempted at least once, whatever happened on the other targets,
    and a target whose three attempts all reject or time out is
    attempted exactly three times and its slot holds
    [{success: false, serverName, error}] with the message of the
    third attempt. When [EmbedBuilder] throws, no target is attempted
    at all. *)
Theorem retry_ceiling cfg (builder : Announcement -> option string)
    announcement sendTo (w : nat) :
  (w < length (WEBHOOK_URLS cfg))%nat ->
  let results := ps_results (deliver cfg sendTo) in
  let tries :=
    triesOn w (attemptsMade (postToDiscord cfg builder announcement sendTo)) in
  (length tries <= 3)%nat
  /\ tries `prefix_of` [1; 2; 3]%nat
  /\ length results = length (WEBHOOK_URLS cfg)
  /\ (builder announcement = None ->
      tries ≠ []
      /\ forall m1 m2 m3,
           (raceSend 1 (sendTo w 1%nat)).1 = Some m1 ->
           (raceSend 2 (sendTo w 2%nat)).1 = Some m2 ->
           (raceSend 3 (sendTo w 3%nat)).1 = Some m3 ->
           tries = [1; 2; 3]%nat
           /\ results !! w
              = Some {| success := false; serverName := serverNameOf cfg w;
                        error := Some m3 |})
  /\ (builder announcement ≠ None -> tries = []).
Proof.
  intros Hw results tries. subst results tries.
  pose proof (attemptsRun_prefix (sendTo w) (seq 1 3)) as Hpre.
  destruct (builder announcement) as [message|] eqn:Hbuilt.
  - rewrite (postToDiscord_rejected _ _ _ _ message) by done.
    cbn [attemptsMade]. split_and!.
    + simpl. lia.
    + apply prefix_nil.
    + apply deliver_results_length.
    + done.
    + done.
  - rewrite postToDiscord_built by done. cbn [postEmbed attemptsMade].
    rewrite deliver_tries, decide_True by done.
    split_and!.
    + by apply prefix_length in Hpre.
    + done.
    + apply deliver_results_length.
    + intros _. split; [by apply attemptsRun_nonempty|].
      intros m1 m2 m3 H1 H2 H3.
      destruct (all_three_fail (sendTo w) m1 m2 m3 H1 H2 H3) as [Hnone Hlast].
      split; [by apply attemptsRun_all_fail|].
      rewrite deliver_results_lookup by done.
      unfold outcomeOf. by rewrite Hnone, Hlast.
    + done.
Qed.

Lemma retry_ceiling_witness :
  (1 < length (WEBHOOK_URLS twoWebhooks))%nat
  /\ titleCheck noticeA = None
  /\ triesOn 1 (attemptsMade (postToDiscord twoWebhooks titleCheck noticeA refusing))
     = [1; 2; 3]%nat
  /\ ps_results (deliver twoWebhooks refusing) !! 1%nat
     = Some {| success := false; serverName := "Server 2";
               error := Some "refused #3" |}.
Proof.
  assert (1 < length (WEBHOOK_URLS twoWebhooks))%nat as Hw by (simpl; lia).
  assert (titleCheck noticeA = None) as Hbuilt by reflexivity.
  split; [exact Hw|]. split; [exact Hbuilt|].
  destruct (retry_ceiling twoWebhooks titleCheck noticeA refusing 1 Hw)
    as (_ & _ & _ & H & _).
  destruct (H Hbuilt) as [_ Hfail].
  apply (Hfail "refused #1" "refused #2" "refused #3"); reflexivity.
Defined.

Lemma discordSuccess_no_webhook cfg env i ann :
  WEBHOOK_URLS cfg = [] -> discordSuccess cfg env i ann = false.
Proof.
  intros H. unfold discordSuccess, racePosting, postToDiscord, postEmbed, deliver.
  rewrite H. by destruct (embedError env ann).
Qed.

Lemma confirmedOf_none cfg env l :
  (forall i ann, discordSuccess cfg env i ann = false) -> confirmedOf cfg env l = [].
Proof.
  intros H. unfold confirmedOf. apply elem_of_nil_inv.
  intros [i ann] [Hi _]%list_elem_of_filter. simpl in Hi. by rewrite H in Hi.
Qed.

Lemma postEmbed_throws_iff cfg sendTo :
  (exists message, settles (postEmbed cfg sendTo) = inl message)
  <-> WEBHOOK_URLS cfg ≠ []
      /\ forall r, r ∈ ps_results (deliver cfg sendTo) -> success r = false.
Proof.
  cbn [postEmbed settles].
  pose proof (deliver_results_length cfg sendTo) as Hlen.
  set (results := ps_results (deliver cfg sendTo)) in *.
  split.
  - intros [message H].
    destruct (0 <? length results)%nat eqn:Hpos; [|done].
    destruct (forallb _ results) eqn:Hall; [|done].
    apply Nat.ltb_lt in Hpos. split.
    + intros Hnil. rewrite Hnil in Hlen. simpl in Hlen. lia.
    + intros r Hr. rewrite forallb_forall in Hall.
      apply list_elem_of_In, Hall in Hr. by apply negb_true_iff in Hr.
  - intros [Hne Hall].
    exists "Failed to post to all Discord webhooks after multiple retries".
    assert ((0 <? length results)%nat = true) as ->.
    { apply Nat.ltb_lt. rewrite Hlen. destruct (WEBHOOK_URLS cfg); [done|simpl; lia]. }
    assert (forallb (fun r => negb (success r)) results = true) as ->; [|done].
    apply forallb_forall. intros r Hr%list_elem_of_In.
    by rewrite (Hall r Hr).
Qed.

(** C10, as amended. [postToDiscord] throws exactly when [EmbedBuilder]
    rejects the announcement, or at least one webhook is configured and
    every outcome it collected has [success: false], that is, every
    attempt on every webhook rejected or ran into its timer. When
    [EmbedBuilder] throws, its error is the one raised and no webhook
    has been tried. With no webhook configured [postToDiscord] returns
    the empty list once the embed is built; either way no candidate
    counts as delivered, and no cycle adds a record to the store. *)
Theorem dispatcher_throws_iff cfg :
  (forall (builder : Announcement -> option string) announcement sendTo,
     ((exists message,
         settles (postToDiscord cfg builder announcement sendTo) = inl message)
      <-> builder announcement ≠ None
          \/ (WEBHOOK_URLS cfg ≠ []
              /\ forall r, r ∈ ps_results (deliver cfg sendTo) -> success r = false))
     /\ ((exists message,
            settles (postToDiscord cfg builder announcement sendTo) = inl message)
         <-> builder announcement ≠ None
             \/ (WEBHOOK_URLS cfg ≠ []
                 /\ forall w k, (w < length (WEBHOOK_URLS cfg))%nat ->
                                (1 <= k <= 3)%nat ->
                                succeedsAt (sendTo w) k = false))
     /\ (forall message,
           builder announcement = Some message ->
           settles (postToDiscord cfg builder announcement sendTo) = inl message
           /\ attemptsMade (postToDiscord cfg builder announcement sendTo) = []))
  /\ (WEBHOOK_URLS cfg = [] ->
      (forall (builder : Announcement -> option string) announcement sendTo,
         builder announcement = None ->
         settles (postToDiscord cfg builder announcement sendTo) = inr [])
      /\ (forall env i ann, discordSuccess cfg env i ann = false)
      /\ (forall env w,
            store (runCycle cfg env w).1 = store w
            /\ forall records, records ∈ writesOf (runCycle cfg env w).2 ->
                               records = [])).
Proof.
  split.
  - intros builder announcement sendTo.
    assert ((exists message,
               settles (postToDiscord cfg builder announcement sendTo) = inl message)
            <-> builder announcement ≠ None
                \/ (WEBHOOK_URLS cfg ≠ []
                    /\ forall r, r ∈ ps_results (deliver cfg sendTo) ->
                                 success r = false)) as Hiff.
    { destruct (builder announcement) as [message|] eqn:Hbuilt.
      - rewrite (postToDiscord_rejected _ _ _ _ message) by done.
        split; [by left|]. intros _. by exists message.
      - rewrite postToDiscord_built, postEmbed_throws_iff by done.
        split; [by right|]. by intros [?|?]. }
    split_and!.
    + exact Hiff.
    + rewrite Hiff. by rewrite all_outcomes_fail.
    + intros message Hbuilt.
      by rewrite (postToDiscord_rejected _ _ _ _ message).
  - intros Hnone. split_and!.
    + intros builder announcement sendTo Hbuilt.
      rewrite postToDiscord_built by done. unfold postEmbed, deliver.
      by rewrite Hnone.
    + intros env i ann. by apply discordSuccess_no_webhook.
    + intros env w.
      assert (forall anns, newRecords cfg env (knownIds w) anns = []) as Hnews.
      { intros anns. unfold newRecords. rewrite confirmedOf_none; [done|].
        intros i ann. by apply discordSuccess_no_webhook. }
      destruct (file_shape w) as [[text Hw]|Hw].
      { destruct (cycle_without_feed cfg env w) as (_ & -> & -> & _).
        - left. intros H. by destruct (H text).
        - rewrite Hw. split; [done|]. by intros records ?%elem_of_nil. }
      destruct (feed env) as [message|anns] eqn:Hfeed.
      { destruct (cycle_without_feed cfg env w) as (_ & -> & -> & _); [eauto|].
        split; [done|]. intros records.
        destruct (db_file w) as [[raw|v]|]; rewrite ?elem_of_nil, ?list_elem_of_singleton; done. }
      destruct (cycle_summary cfg env w anns Hw Hfeed) as (_ & -> & -> & _).
      rewrite Hnews, !app_nil_r, writesOf_loadEvents. split; [done|].
      intros records.
      destruct (db_file w) as [[raw|v]|]; rewrite ?elem_of_nil, ?list_elem_of_singleton; done.
Qed.

Lemma dispatcher_throws_iff_witness :
  WEBHOOK_URLS noWebhook = []
  /\ titleCheck noticeA = None
  /\ settles (postToDiscord noWebhook titleCheck noticeA refusing) = inr []
  /\ store (runCycle noWebhook (promptEnv (inr [noticeA])) emptyWorld).1
     = store emptyWorld.
Proof.
  assert (WEBHOOK_URLS noWebhook = []) as H by reflexivity.
  assert (titleCheck noticeA = None) as Hbuilt by reflexivity.
  split; [exact H|]. split; [exact Hbuilt|].
  destruct (dispatcher_throws_iff noWebhook) as [_ Hzero].
  destruct (Hzero H) as (Hret & _ & Hstore).
  split; [by apply Hret|apply Hstore].
Defined.

(** C10 as stated fails on an announcement [EmbedBuilder] rejects: with
    no webhook configured, [postToDiscord] for a feed item without a
    title throws, although the target list is empty, and does not
    return the empty list. *)
Lemma C10_counterexample :
  ~ raisesOnlyWhenAllFail noWebhook titleCheck untitled refusing
  /\ ~ returnsEmptyWithoutTargets noWebhook titleCheck untitled refusing
  /\ WEBHOOK_URLS noWebhook = []
  /\ settles (postToDiscord noWebhook titleCheck untitled refusing)
     = inl "Received one or more errors".
Proof.
  split_and!; [| |reflexivity|reflexivity].
  - intros [Hraise _].
    destruct Hraise as [Hne _]; [by exists "Received one or more errors"|].
    done.
  - intros Hret. specialize (Hret eq_refl). discriminate Hret.
Qed.

End DispatcherClaims.

(** ** The reconciliation cycle *)

Section CycleClaims.
Import NoticeEmbed.

Lemma discordSuccess_intro cfg env i ann :
  settledAt (postToDiscord cfg (embedError env) ann (send env i)) < 30000 ->
  reportsSuccess cfg env i ann ->
  discordSuccess cfg env i ann = true.
Proof.
  intros Htime (results & Hres & r & Hr & Hok).
  unfold discordSuccess, racePosting.
  apply Z.ltb_lt in Htime. rewrite Htime, Hres.
  apply existsb_exists. exists r. split; [by apply list_elem_of_In|done].
Qed.

Lemma filter_fmap_comm {A B} (f : A -> B) (P : B -> Prop)
    `{forall y, Decision (P y)} (l : list A) :
  filter P (f <$> l) = f <$> filter (fun x => P (f x)) l.
Proof.
  induction l as [|x l IH]; [done|].
  rewrite fmap_cons, !filter_cons. simpl. rewrite IH.
  by destruct (decide (P (f x))).
Qed.

Lemma dispatched_inv cfg env w i ann :
  (i, ann) ∈ dispatchesOf (runCycle cfg env w).2 ->
  holdsRecords w
  /\ exists announcements,
       feed env = inr announcements
       /\ announcements !! i = Some ann
       /\ ann_id ann ∉ storeIds w.
Proof.
  intros Hd. destruct (file_shape w) as [[text Hw]|Hw].
  { destruct (cycle_without_feed cfg env w) as (Hnone & _).
    - left. intros H. by destruct (H text).
    - rewrite Hnone in Hd. by apply elem_of_nil in Hd. }
  split; [done|]. destruct (feed env) as [message|anns] eqn:Hfeed.
  { destruct (cycle_without_feed cfg env w) as (Hnone & _); [eauto|].
    rewrite Hnone in Hd. by apply elem_of_nil in Hd. }
  destruct (cycle_summary cfg env w anns Hw Hfeed) as (Hdisp & _).
  rewrite Hdisp in Hd. apply elem_of_toProcess in Hd as [Hl Hid].
  exists anns. split_and!; [done|done|]. by rewrite <- elem_of_knownIds.
Qed.

(** C1, as amended. A candidate the cycle dispatches, whose posting
    settles before the 30 s timer of [main] with at least one success,
    is recorded: after the cycle the store is the loaded store followed
    by new records, among them the one made of the candidate's id and
    title and its confirmation time; the store is what the cycle wrote
    last and what the state file holds. When no other element of the
    feed carries the same id, it is the only new record with that id. *)
Theorem confirmed_delivery_is_recorded cfg env w i ann :
  (i, ann) ∈ dispatchesOf (runCycle cfg env w).2 ->
  settledAt (postToDiscord cfg (embedError env) ann (send env i)) < 30000 ->
  reportsSuccess cfg env i ann ->
  (ann_id ann ∉ storeIds w)
  /\ exists news,
       store (runCycle cfg env w).1 = store w ++ news
       /\ postedRecordOf env i ann ∈ news
       /\ last (writesOf (runCycle cfg env w).2)
          = Some (store (runCycle cfg env w).1)
       /\ db_file (runCycle cfg env w).1
          = Some (Parsable (JArray (store (runCycle cfg env w).1)))
       /\ ((forall announcements j other,
              feed env = inr announcements ->
              announcements !! j = Some other ->
              ann_id other = ann_id ann -> j = i) ->
           filter (fun r => rec_id r = ann_id ann) news
           = [postedRecordOf env i ann]).
Proof.
  intros Hd Htime Hrep.
  pose proof (discordSuccess_intro cfg env i ann Htime Hrep) as Hok.
  destruct (dispatched_inv cfg env w i ann Hd) as (Hw & anns & Hfeed & Hl & Hid).
  split; [done|].
  destruct (cycle_summary cfg env w anns Hw Hfeed) as (_ & Hst & Hwr & Hsave & _).
  set (news := newRecords cfg env (knownIds w) anns) in *.
  assert ((i, ann) ∈ confirmedOf cfg env (toProcess (knownIds w) anns)) as Hconf.
  { unfold confirmedOf. apply list_elem_of_filter. split; [done|].
    apply elem_of_toProcess. split; [done|]. by rewrite elem_of_knownIds. }
  assert (postedRecordOf env i ann ∈ news) as Hin.
  { unfold news, newRecords.
    by apply (list_elem_of_fmap_2 (fun p => postedRecordOf env p.1 p.2)) in Hconf. }
  assert (news ≠ []) as Hne by (by eapply elem_of_not_nil).
  exists news. split_and!.
  - done.
  - done.
  - rewrite Hwr, Hst. destruct news; [done|]. by rewrite last_snoc.
  - rewrite Hsave, Hst by done. done.
  - intros Huniq. unfold news, newRecords.
    rewrite (filter_fmap_comm (fun p => postedRecordOf env p.1 p.2)).
    rewrite (filter_only _ _ (i, ann)); [done| | done | done |].
    + apply NoDup_filter, NoDup_toProcess.
    + intros [j other] [_ [Hj _]%elem_of_toProcess]%list_elem_of_filter Hsame.
      simpl in Hsame. assert (j = i) as -> by (by eapply Huniq).
      congruence.
Qed.

Lemma confirmed_delivery_is_recorded_witness :
  (0%nat, noticeA) ∈ dispatchesOf
      (runCycle oneWebhook (promptEnv (inr [noticeA])) freshWorld).2
  /\ store (runCycle oneWebhook (promptEnv (inr [noticeA])) freshWorld).1
     = [postedRecordOf (promptEnv (inr [noticeA])) 0 noticeA].
Proof.
  assert ((0%nat, noticeA) ∈ dispatchesOf
      (runCycle oneWebhook (promptEnv (inr [noticeA])) freshWorld).2) as Hd.
  { vm_compute. apply elem_of_cons. by left. }
  split; [exact Hd|].
  destruct (confirmed_delivery_is_recorded oneWebhook
              (promptEnv (inr [noticeA])) freshWorld 0 noticeA Hd)
    as (_ & news & Hst & _ & _ & _ & Hone).
  - vm_compute. reflexivity.
  - exists [{| success := true; serverName := "Campus"; error := None |}].
    split; [vm_compute; reflexivity|].
    eexists. split; [apply elem_of_cons; by left|reflexivity].
  - rewrite Hst. cbn [store freshWorld db_file app].
    rewrite <- Hone.
    + symmetry. apply filter_all. intros r Hr.
      assert (r ∈ store freshWorld ++ news) as Hr' by (apply elem_of_app; by right).
      rewrite <- Hst in Hr'. vm_compute in Hr'.
      apply elem_of_cons in Hr' as [->|Hr']; [done|]. by apply elem_of_nil in Hr'.
    + intros anns j other [= <-] Hj _. by destruct j as [|[|j]].
Defined.

(** C1 as stated fails on the 30 s timer of [main]: the dispatcher's
    result lists a success, reached 30.5 s after the call, and the
    cycle records nothing. (It also fails when the feed carries the
    same unknown id twice and both postings succeed: two new records
    have that id.) *)
Lemma C1_counterexample :
  ((0%nat, noticeA) ∈ dispatchesOf (runCycle oneWebhook slowEnv emptyWorld).2
   /\ (ann_id noticeA ∉ storeIds emptyWorld)
   /\ reportsSuccess oneWebhook slowEnv 0 noticeA
   /\ ~ recordedOnce oneWebhook slowEnv emptyWorld 0 noticeA)
  /\ ((0%nat, noticeA) ∈ dispatchesOf
          (runCycle oneWebhook (promptEnv (inr [noticeA; noticeA])) emptyWorld).2
      /\ reportsSuccess oneWebhook (promptEnv (inr [noticeA; noticeA])) 0 noticeA
      /\ ~ recordedOnce oneWebhook (promptEnv (inr [noticeA; noticeA]))
             emptyWorld 0 noticeA).
Proof.
  split; split_and!.
  - vm_compute. apply elem_of_cons. by left.
  - apply not_elem_of_nil.
  - exists [{| success := true; serverName := "Campus"; error := None |}].
    split; [vm_compute; reflexivity|].
    eexists. split; [apply elem_of_cons; by left|reflexivity].
  - intros (news & Hst & Hone & _).
    assert (store (runCycle oneWebhook slowEnv emptyWorld).1 = []) as Hempty
      by (vm_compute; reflexivity).
    rewrite Hempty in Hst. simpl in Hst. subst news. done.
  - vm_compute. apply elem_of_cons. right. apply elem_of_cons. by left.
  - exists [{| success := true; serverName := "Campus"; error := None |}].
    split; [vm_compute; reflexivity|].
    eexists. split; [apply elem_of_cons; by left|reflexivity].
  - intros (news & Hst & Hone & _).
    assert (store (runCycle oneWebhook (promptEnv (inr [noticeA; noticeA]))
                     emptyWorld).1
            = [postedRecordOf (promptEnv (inr [noticeA; noticeA])) 1 noticeA;
               postedRecordOf (promptEnv (inr [noticeA; noticeA])) 0 noticeA])
      as Hboth by (vm_compute; reflexivity).
    rewrite Hboth in Hst. simpl in Hst. subst news.
    vm_compute in Hone. discriminate.
Qed.

Lemma toProcess_by_storeIds w (announcements : list Announcement) :
  toProcess (knownIds w) announcements
  = filter (fun p => ann_id p.2 ∉ storeIds w) (reverse (imap pair announcements)).
Proof.
  unfold toProcess. apply list_filter_iff. intros [i ann]. simpl.
  by rewrite elem_of_knownIds.
Qed.

Lemma confirmedOf_all cfg env (l : list (nat * Announcement)) :
  (forall p, p ∈ l -> discordSuccess cfg env p.1 p.2 = true) ->
  confirmedOf cfg env l = l.
Proof. intros H. unfold confirmedOf. by apply filter_all. Qed.

(** C3, as amended. The cycle dispatches the unknown candidates from
    the last element of the feed to the first. When every candidate is
    unknown to the store and every posting settles before the 30 s
    timer of [main] with at least one success, the store after the
    cycle is the loaded store followed by one record per candidate, in
    that reversed order, each with the id and the title of its
    candidate and its confirmation time: for a feed [[c3; c2; c1]], the
    records of [c1], [c2], [c3]. *)
Theorem oldest_first cfg env w announcements :
  holdsRecords w -> feed env = inr announcements ->
  dispatchesOf (runCycle cfg env w).2
  = filter (fun p => ann_id p.2 ∉ storeIds w) (reverse (imap pair announcements))
  /\ ((forall i ann, announcements !! i = Some ann ->
         (ann_id ann ∉ storeIds w)
         /\ settledAt (postToDiscord cfg (embedError env) ann (send env i)) < 30000
         /\ reportsSuccess cfg env i ann) ->
      dispatchesOf (runCycle cfg env w).2 = reverse (imap pair announcements)
      /\ store (runCycle cfg env w).1
         = store w ++ ((fun p => postedRecordOf env p.1 p.2)
                         <$> reverse (imap pair announcements))
      /\ rec_id <$> store (runCycle cfg env w).1
         = storeIds w ++ reverse (ann_id <$> announcements)
      /\ rec_title <$> store (runCycle cfg env w).1
         = (rec_title <$> store w) ++ reverse (ann_title <$> announcements)
      /\ forall c3 c2 c1, announcements = [c3; c2; c1] ->
           store (runCycle cfg env w).1
           = store w
             ++ [{| rec_id := ann_id c1; rec_title := ann_title c1;
                    rec_postedAt := stamp env 2 |};
                 {| rec_id := ann_id c2; rec_title := ann_title c2;
                    rec_postedAt := stamp env 1 |};
                 {| rec_id := ann_id c3; rec_title := ann_title c3;
                    rec_postedAt := stamp env 0 |}]).
Proof.
  intros Hw Hfeed.
  destruct (cycle_summary cfg env w announcements Hw Hfeed) as (Hdisp & Hst & _).
  split; [by rewrite Hdisp, toProcess_by_storeIds|].
  intros Hall.
  assert (toProcess (knownIds w) announcements = reverse (imap pair announcements))
    as Hproc.
  { apply toProcess_all_unknown. intros ann [i Hi]%list_elem_of_lookup_1.
    rewrite elem_of_knownIds. by apply (Hall i ann). }
  assert (newRecords cfg env (knownIds w) announcements
          = (fun p => postedRecordOf env p.1 p.2) <$> reverse (imap pair announcements))
    as Hnews.
  { unfold newRecords. rewrite Hproc, confirmedOf_all; [done|].
    intros [i ann] Hp%elem_of_indexed.
    destruct (Hall i ann Hp) as (_ & Htime & Hrep).
    by apply discordSuccess_intro. }
  split_and!.
  - by rewrite Hdisp.
  - by rewrite Hst, Hnews.
  - rewrite Hst, Hnews, fmap_app. fold (storeIds w). f_equal.
    rewrite <- list_fmap_compose, fmap_reverse. f_equal.
    by apply fmap_indexed.
  - rewrite Hst, Hnews, fmap_app. f_equal.
    rewrite <- list_fmap_compose, fmap_reverse. f_equal.
    by apply fmap_indexed.
  - intros c3 c2 c1 ->. by rewrite Hst, Hnews.
Qed.

Lemma oldest_first_witness :
  holdsRecords emptyWorld
  /\ store (runCycle oneWebhook (promptEnv (inr [noticeC; noticeB; noticeA]))
              emptyWorld).1
     = [{| rec_id := "https://www.bracu.ac.bd/node/101";
           rec_title := "Midterm schedule";
           rec_postedAt := "2025-06-04T10:00:02.000Z" |};
        {| rec_id := "https://www.bracu.ac.bd/node/102";
           rec_title := "Library hours";
           rec_postedAt := "2025-06-04T10:00:01.000Z" |};
        {| rec_id := "https://www.bracu.ac.bd/node/103";
           rec_title := "Convocation";
           rec_postedAt := "2025-06-04T10:00:00.000Z" |}].
Proof.
  assert (holdsRecords emptyWorld) as Hw by (intros text; discriminate).
  split; [exact Hw|].
  destruct (oldest_first oneWebhook (promptEnv (inr [noticeC; noticeB; noticeA]))
              emptyWorld [noticeC; noticeB; noticeA] Hw eq_refl) as [_ H].
  destruct H as (_ & _ & _ & _ & H).
  - intros i ann Hi. split; [apply not_elem_of_nil|].
    destruct i as [|[|[|i]]]; try discriminate; injection Hi as <-.
    all: split; [vm_compute; reflexivity|].
    all: exists [{| success := true; serverName := "Campus"; error := None |}].
    all: split; [vm_compute; reflexivity|].
    all: eexists; split; [apply elem_of_cons; by left|reflexivity].
  - apply (H noticeC noticeB noticeA eq_refl).
Defined.

(** C3 as stated fails on the 30 s timer of [main]: all three
    candidates are unknown and the dispatcher's result for each lists a
    success, but the one for [noticeB] arrives 30.5 s after the call
    and [noticeB] is not recorded. *)
Lemma C3_counterexample :
  ~ chronologicalInsertion oneWebhook lateSecondEnv emptyWorld
      noticeC noticeB noticeA
  /\ rec_id <$> store (runCycle oneWebhook lateSecondEnv emptyWorld).1
     = [ann_id noticeA; ann_id noticeC].
Proof.
  split; [|vm_compute; reflexivity].
  intros H. unfold chronologicalInsertion in H.
  assert (rec_id <$> store (runCycle oneWebhook lateSecondEnv emptyWorld).1
          = [ann_id noticeA; ann_id noticeC]) as Hids by (vm_compute; reflexivity).
  rewrite Hids in H. 
  assert ([ann_id noticeA; ann_id noticeC]
          = storeIds emptyWorld ++ [ann_id noticeA; ann_id noticeB; ann_id noticeC])
    as Habs; [|discriminate Habs].
  apply H; [reflexivity|].
  intros i ann Hi. split; [apply not_elem_of_nil|].
  destruct i as [|[|[|i]]]; try discriminate; injection Hi as <-.
  all: exists [{| success := true; serverName := "Campus"; error := None |}].
  all: split; [vm_compute; reflexivity|].
  all: eexists; split; [apply elem_of_cons; by left|reflexivity].
Qed.

(** C5. After a cycle, a second cycle that gets the same feed and finds
    every feed id in the store dispatches nothing and writes nothing:
    the state file is the one the first cycle left. *)
Theorem second_run_is_idle cfg env1 env2 w0 announcements :
  feed env1 = inr announcements -> feed env2 = inr announcements ->
  (forall ann, ann ∈ announcements ->
     ann_id ann ∈ storeIds (runCycle cfg env1 w0).1) ->
  dispatchesOf (runCycle cfg env2 (runCycle cfg env1 w0).1).2 = []
  /\ writesOf (runCycle cfg env2 (runCycle cfg env1 w0).1).2 = []
  /\ db_file (runCycle cfg env2 (runCycle cfg env1 w0).1).1
     = db_file (runCycle cfg env1 w0).1
  /\ store (runCycle cfg env2 (runCycle cfg env1 w0).1).1
     = store (runCycle cfg env1 w0).1.
Proof.
  intros _ Hfeed Hknown.
  destruct (runCycle_file_parses cfg env1 w0) as [v Hv].
  set (w1 := (runCycle cfg env1 w0).1) in *.
  assert (loadWorld w1 = w1) as Hload by (unfold loadWorld; by rewrite Hv).
  destruct (file_shape w1) as [[text Hw]|Hw].
  - destruct (cycle_without_feed cfg env2 w1) as (-> & -> & -> & ->).
    + left. intros H. by destruct (H text).
    + by rewrite Hload, Hv.
  - destruct (cycle_summary cfg env2 w1 announcements Hw Hfeed)
      as (Hdisp & Hst & Hwr & _ & Hidle).
    assert (toProcess (knownIds w1) announcements = []) as Hproc.
    { apply toProcess_all_known. intros ann Hann. rewrite elem_of_knownIds. auto. }
    assert (newRecords cfg env2 (knownIds w1) announcements = []) as Hnews.
    { unfold newRecords. by rewrite Hproc. }
    rewrite Hnews in *. rewrite Hdisp, Hst, Hwr, Hidle, writesOf_loadEvents by done.
    by rewrite Hproc, Hload, Hv, !app_nil_r.
Qed.

Lemma second_run_is_idle_witness :
  (forall ann, ann ∈ [noticeB; noticeA] ->
     ann_id ann ∈ storeIds
       (runCycle oneWebhook (promptEnv (inr [noticeB; noticeA])) freshWorld).1)
  /\ writesOf
       (runCycle oneWebhook (nextDayEnv (inr [noticeB; noticeA]))
          (runCycle oneWebhook (promptEnv (inr [noticeB; noticeA])) freshWorld).1).2
     = [].
Proof.
  assert (forall ann, ann ∈ [noticeB; noticeA] ->
     ann_id ann ∈ storeIds
       (runCycle oneWebhook (promptEnv (inr [noticeB; noticeA])) freshWorld).1)
    as Hknown.
  { intros ann Hann. vm_compute.
    apply elem_of_cons in Hann as [->|Hann].
    - apply elem_of_cons. right. apply elem_of_cons. by left.
    - apply elem_of_cons in Hann as [->|Hann]; [|by apply elem_of_nil in Hann].
      apply elem_of_cons. by left. }
  split; [exact Hknown|].
  apply (second_run_is_idle oneWebhook (promptEnv (inr [noticeB; noticeA]))
           (nextDayEnv (inr [noticeB; noticeA])) freshWorld [noticeB; noticeA]
           eq_refl eq_refl Hknown).
Defined.

(** C7, as amended. When the fetch fails the cycle dispatches nothing,
    saves no record and leaves the store and [lastSyncTime] alone. A
    state file that parses is left untouched, with no write at all; a
    missing or unparsable one has been replaced by [[]], in one write,
    by [loadPosted] before the fetch. *)
Theorem fetch_failure_isolation cfg env w message :
  feed env = inl message ->
  dispatchesOf (runCycle cfg env w).2 = []
  /\ store (runCycle cfg env w).1 = store w
  /\ lastSyncTime (runCycle cfg env w).1 = lastSyncTime w
  /\ match db_file w with
     | Some (Parsable _) =>
         (runCycle cfg env w).1 = w /\ writesOf (runCycle cfg env w).2 = []
     | _ =>
         db_file (runCycle cfg env w).1 = Some (Parsable (JArray []))
         /\ writesOf (runCycle cfg env w).2 = [[]]
     end.
Proof.
  intros Hfeed.
  destruct (cycle_without_feed cfg env w) as (Hd & Hst & Hwr & Hfile); [eauto|].
  split_and!; try done.
  - destruct (file_shape w) as [[text Hw]|Hw].
    + by rewrite (runCycle_not_an_array _ _ _ text).
    + rewrite (runCycle_fetch_error _ _ _ message) by done.
      apply loadWorld_lastSyncTime.
  - destruct (file_shape w) as [[text Hw]|Hw].
    + rewrite Hw, (runCycle_not_an_array _ _ _ text) by done. done.
    + rewrite Hwr, Hfile. rewrite (runCycle_fetch_error _ _ _ message) by done.
      unfold loadWorld. by destruct (db_file w) as [[raw|v]|].
Qed.

Lemma fetch_failure_isolation_witness :
  feed (promptEnv (inl "RSS feed error: 503")) = inl "RSS feed error: 503"
  /\ (runCycle oneWebhook (promptEnv (inl "RSS feed error: 503")) postedAWorld).1
     = postedAWorld
  /\ writesOf (runCycle oneWebhook (promptEnv (inl "RSS feed error: 503"))
                 postedAWorld).2 = [].
Proof.
  split; [reflexivity|].
  destruct (fetch_failure_isolation oneWebhook
              (promptEnv (inl "RSS feed error: 503")) postedAWorld
              "RSS feed error: 503" eq_refl) as (_ & _ & _ & H).
  exact H.
Defined.

(** C7 as stated fails when the state file is missing or corrupt:
    [loadPosted] has written [[]] before the fetch fails. *)
Lemma C7_counterexample :
  ~ fetchFailureKeepsFile oneWebhook (promptEnv (inl "RSS feed error: 503"))
      freshWorld
  /\ ~ fetchFailureKeepsFile oneWebhook (promptEnv (inl "RSS feed error: 503"))
         corruptWorld.
Proof.
  split; intros H; specialize (H (ex_intro _ _ eq_refl));
    vm_compute in H; discriminate.
Qed.

(** Recovery from a state file that is missing or does not parse:
    [loadPosted] returns [[]] and writes [[]] to the file at once;
    loading again then reads [[]] back without writing; and a cycle
    started on such a file dispatches every element of the feed, last
    first. *)
Lemma unparsable_state_recovery w :
  db_file w = None \/ (exists raw, db_file w = Some (Unparsable raw)) ->
  exists w1,
    loadPosted w
    = (Normal (JArray []), w1, [EvLog LogCreatingEmptyDatabase; EvWriteFile []])
    /\ db_file w1 = Some (Parsable (JArray []))
    /\ loadPosted w1 = (Normal (JArray []), w1, [])
    /\ forall cfg env announcements,
         feed env = inr announcements ->
         dispatchesOf (runCycle cfg env w).2 = reverse (imap pair announcements).
Proof.
  intros Hfile.
  exists {| db_file := Some (Parsable (JArray [])); lastSyncTime := lastSyncTime w |}.
  assert (store w = []) as Hstore.
  { unfold store. by destruct Hfile as [->|[raw ->]]. }
  assert (holdsRecords w) as Hw.
  { intros text. by destruct Hfile as [->|[raw ->]]. }
  split_and!.
  - rewrite loadPosted_run. unfold loadedValue, loadWorld, loadEvents.
    by destruct Hfile as [->|[raw ->]].
  - done.
  - done.
  - intros cfg env announcements Hfeed.
    destruct (cycle_summary cfg env w announcements Hw Hfeed) as (-> & _).
    apply toProcess_all_unknown. intros ann _.
    rewrite elem_of_knownIds. unfold storeIds. rewrite Hstore.
    apply not_elem_of_nil.
Qed.

Lemma unparsable_state_recovery_example :
  (db_file corruptWorld = None
   \/ exists raw, db_file corruptWorld = Some (Unparsable raw))
  /\ exists w1,
       loadPosted corruptWorld
       = (Normal (JArray []), w1, [EvLog LogCreatingEmptyDatabase; EvWriteFile []])
       /\ db_file w1 = Some (Parsable (JArray [])).
Proof.
  assert (db_file corruptWorld = None
          \/ exists raw, db_file corruptWorld = Some (Unparsable raw)) as H.
  { right. eexists. reflexivity. }
  split; [exact H|].
  destruct (unparsable_state_recovery corruptWorld H) as (w1 & Hload & Hfile & _).
  exists w1. split; [exact Hload|exact Hfile].
Qed.

(** C8: the code at the failing input. The state file holds [{}],
    valid JSON that is not an array. [loadPosted] returns the object
    and writes nothing; [main] throws at [posted.map] before the feed is
    fetched, so the announcement of the feed is not dispatched and the
    file is left as it was, for the next cycle to fail on in the same
    way. On a file that does not parse, [loadPosted] does recover: it
    writes [[]], and the cycle dispatches the announcement. *)
Theorem non_array_state_is_not_recovered :
  loadPosted objectWorld = (Normal (JOther "{}"), objectWorld, [])
  /\ runCycle oneWebhook (promptEnv (inr [noticeA])) objectWorld
     = (objectWorld, [EvLog (LogErrorInMain "posted.map is not a function")])
  /\ dispatchesOf (runCycle oneWebhook (promptEnv (inr [noticeA])) objectWorld).2
     = []
  /\ runCycles oneWebhook
       [promptEnv (inr [noticeA]); promptEnv (inr [noticeA])] objectWorld
     = objectWorld
  /\ loadPosted corruptWorld
     = (Normal (JArray []), emptyWorld,
        [EvLog LogCreatingEmptyDatabase; EvWriteFile []])
  /\ dispatchesOf (runCycle oneWebhook (promptEnv (inr [noticeA])) corruptWorld).2
     = [(0%nat, noticeA)]
  /\ storeIds (runCycle oneWebhook (promptEnv (inr [noticeA])) corruptWorld).1
     = [ann_id noticeA].
Proof. split_and!; vm_compute; reflexivity. Qed.

(** C9, as amended. When the fetch returns no candidate, the cycle
    logs that the feed holds no announcement and ends there: nothing is
    dispatched, no backup is attempted and [lastSyncTime] is left
    alone, the store keeps its records, and the only write there can
    be is the [[]] of [loadPosted] on a missing or unparsable file. *)
Theorem empty_feed_ends_cycle cfg env w :
  holdsRecords w -> feed env = inr [] ->
  runCycle cfg env w
  = (loadWorld w, loadEvents w ++ [EvLog LogNoAnnouncementsInFeed])
  /\ syncsOf (runCycle cfg env w).2 = 0%nat
  /\ dispatchesOf (runCycle cfg env w).2 = []
  /\ store (runCycle cfg env w).1 = store w
  /\ lastSyncTime (runCycle cfg env w).1 = lastSyncTime w
  /\ forall records, records ∈ writesOf (runCycle cfg env w).2 -> records = [].
Proof.
  intros Hw Hfeed. rewrite runCycle_empty_feed by done. cbn [fst snd].
  rewrite syncsOf_app, dispatchesOf_app, writesOf_app, syncsOf_loadEvents,
    dispatchesOf_loadEvents, writesOf_loadEvents, loadWorld_store,
    loadWorld_lastSyncTime, !app_nil_r.
  split_and!; try done.
  intros records.
  destruct (db_file w) as [[raw|v]|];
    rewrite ?elem_of_nil, ?list_elem_of_singleton; done.
Qed.

Lemma empty_feed_ends_cycle_witness :
  holdsRecords postedAWorld
  /\ runCycle oneWebhook (nextDayEnv (inr [])) postedAWorld
     = (postedAWorld, [EvLog LogNoAnnouncementsInFeed]).
Proof.
  assert (holdsRecords postedAWorld) as Hw by (intros text; discriminate).
  split; [exact Hw|].
  destruct (empty_feed_ends_cycle oneWebhook (nextDayEnv (inr [])) postedAWorld
              Hw eq_refl) as (H & _).
  exact H.
Defined.

(** C9 as stated fails: a day after the last backup, with a token
    configured, an empty feed ends the cycle without any backup. *)
Lemma C9_counterexample :
  ~ emptyFeedChecksBackup oneWebhook (nextDayEnv (inr [])) postedAWorld.
Proof.
  intros H. destruct H as [_ Hsync]; [reflexivity|by vm_compute|].
  vm_compute in Hsync. apply elem_of_cons in Hsync as [?|Hsync]; [done|].
  by apply elem_of_nil in Hsync.
Qed.

(** C4: the code at the failing input. The store is empty and the feed
    carries the same announcement twice; both are dispatched, since
    [postedIds] is built before the loop and never updated, and the
    store ends with two records of the same id. *)
Theorem duplicate_feed_ids_stored_twice :
  NoDup (storeIds emptyWorld)
  /\ dispatchesOf
       (runCycle oneWebhook (promptEnv (inr [noticeA; noticeA])) emptyWorld).2
     = [(1%nat, noticeA); (0%nat, noticeA)]
  /\ storeIds (runCycle oneWebhook (promptEnv (inr [noticeA; noticeA])) emptyWorld).1
     = [ann_id noticeA; ann_id noticeA]
  /\ ~ NoDup
         (storeIds
            (runCycle oneWebhook (promptEnv (inr [noticeA; noticeA])) emptyWorld).1).
Proof.
  assert (storeIds
            (runCycle oneWebhook (promptEnv (inr [noticeA; noticeA])) emptyWorld).1
          = [ann_id noticeA; ann_id noticeA]) as Hids by (vm_compute; reflexivity).
  split_and!.
  - apply NoDup_nil_2.
  - vm_compute. reflexivity.
  - exact Hids.
  - rewrite Hids. intros [Hin _]%NoDup_cons. apply Hin, elem_of_cons. by left.
Qed.

(** C2: the code of [part_001] at the failing input. The feed is
    [[noticeB; noticeA]]; [noticeA] is posted, then every send for
    [noticeB] is rejected: [postToDiscord] throws out of the loop,
    [savePosted] is never reached and the record of [noticeA] is lost.
    The [main] of [notice-embed.js] saves it on the same input. *)
Theorem part001_failure_discards_confirmed :
  Part001.postToDiscord oneWebhook (embedError flakyEnv) noticeA
    (send flakyEnv 1) emptyWorld
  = (Normal [{| success := true; serverName := "Campus"; error := None |}],
     emptyWorld, [])
  /\ dispatchesOf (Part001.runCycle oneWebhook flakyEnv emptyWorld).2
     = [(1%nat, noticeA); (0%nat, noticeB)]
  /\ writesOf (Part001.runCycle oneWebhook flakyEnv emptyWorld).2 = []
  /\ store (Part001.runCycle oneWebhook flakyEnv emptyWorld).1 = []
  /\ store (NoticeEmbed.runCycle oneWebhook flakyEnv emptyWorld).1
     = [postedRecordOf flakyEnv 1 noticeA].
Proof. split_and!; vm_compute; reflexivity. Qed.

End CycleClaims.

(** ** Records and ids after a cycle *)

Section StoreIds.
Import NoticeEmbed.

(** The candidates dispatched, without their indices: the unknown
    elements of the feed, reversed. *)
Lemma toProcess_candidates ids (announcements : list Announcement) :
  (toProcess ids announcements).*2
  = reverse (filter (fun a => ann_id a ∉ ids) announcements).
Proof.
  induction announcements as [|a l IH] using rev_ind; [done|].
  rewrite toProcess_snoc, fmap_app, IH, filter_app, reverse_app.
  f_equal. rewrite filter_cons, filter_nil.
  destruct (decide (ann_id a ∈ ids)) as [Hin|Hout].
  - by rewrite decide_False by tauto.
  - by rewrite decide_True.
Qed.

Lemma newRecords_ids cfg env ids (announcements : list Announcement) :
  rec_id <$> newRecords cfg env ids announcements
  = ann_id <$> (confirmedOf cfg env (toProcess ids announcements)).*2.
Proof. unfold newRecords. rewrite <- !list_fmap_compose. done. Qed.

Lemma elem_of_newRecords cfg env ids (announcements : list Announcement) r :
  r ∈ newRecords cfg env ids announcements
  <-> exists i ann,
        r = postedRecordOf env i ann
        /\ announcements !! i = Some ann
        /\ (ann_id ann ∉ ids)
        /\ discordSuccess cfg env i ann = true.
Proof.
  unfold newRecords, confirmedOf. rewrite list_elem_of_fmap. split.
  - intros ([i ann] & -> & [Hok [Hl Hid]%elem_of_toProcess]%list_elem_of_filter).
    exists i, ann. done.
  - intros (i & ann & -> & Hl & Hid & Hok). exists (i, ann). split; [done|].
    apply list_elem_of_filter. split; [done|]. by apply elem_of_toProcess.
Qed.

(** A dispatched candidate is not recorded when its posting is not
    confirmed, and its id stays out of the store unless another element
    of the same feed with that id is confirmed. *)
Lemma failed_delivery_is_not_recorded cfg env w i ann :
  (i, ann) ∈ dispatchesOf (runCycle cfg env w).2 ->
  (forall announcements j other,
     feed env = inr announcements -> announcements !! j = Some other ->
     ann_id other = ann_id ann -> discordSuccess cfg env j other = false) ->
  ann_id ann ∉ storeIds (runCycle cfg env w).1.
Proof.
  intros Hd Hfail.
  destruct (dispatched_inv cfg env w i ann Hd) as (Hw & anns & Hfeed & Hl & Hid).
  destruct (cycle_summary cfg env w anns Hw Hfeed) as (_ & Hst & _).
  unfold storeIds in *. rewrite Hst, fmap_app, elem_of_app.
  intros [Hin|Hin]; [done|].
  apply list_elem_of_fmap in Hin as (r & Hr & Hin).
  apply elem_of_newRecords in Hin as (j & other & -> & Hj & _ & Hok).
  simpl in Hr. rewrite (Hfail anns j other) in Hok; done.
Qed.

(** Ids stay pairwise distinct over a cycle whose feed does not repeat
    an id the store does not know. *)
Lemma store_ids_stay_distinct cfg env w :
  NoDup (storeIds w) ->
  (forall announcements,
     feed env = inr announcements ->
     NoDup (ann_id <$> filter (fun a => ann_id a ∉ knownIds w) announcements)) ->
  NoDup (storeIds (runCycle cfg env w).1).
Proof.
  intros Hnd Hfeedids. destruct (file_shape w) as [[text Hw]|Hw].
  { destruct (cycle_without_feed cfg env w) as (_ & Hst & _).
    - left. intros H. by destruct (H text).
    - unfold storeIds. by rewrite Hst. }
  destruct (feed env) as [message|anns] eqn:Hfeed.
  { destruct (cycle_without_feed cfg env w) as (_ & Hst & _); [eauto|].
    unfold storeIds. by rewrite Hst. }
  destruct (cycle_summary cfg env w anns Hw Hfeed) as (_ & Hst & _).
  unfold storeIds in *. rewrite Hst, fmap_app. apply NoDup_app. split_and!.
  - done.
  - intros x Hx Hnew. apply list_elem_of_fmap in Hnew as (r & -> & Hr).
    apply elem_of_newRecords in Hr as (j & other & -> & _ & Hid & _).
    apply Hid. by apply elem_of_knownIds.
  - rewrite newRecords_ids.
    eapply sublist_NoDup;
      [|apply (fmap_sublist ann_id), (fmap_sublist snd), sublist_filter].
    rewrite toProcess_candidates, fmap_reverse, reverse_Permutation.
    by apply Hfeedids.
Qed.

(** Over any sequence of cycles, whatever their feeds share, ids stay
    pairwise distinct as long as no single feed repeats an id. *)
Lemma store_ids_distinct_over_cycles cfg envs w :
  NoDup (storeIds w) ->
  (forall env announcements,
     env ∈ envs -> feed env = inr announcements ->
     NoDup (ann_id <$> announcements)) ->
  NoDup (storeIds (runCycles cfg envs w)).
Proof.
  revert w. induction envs as [|env rest IH]; intros w Hnd Hfeeds; [done|].
  cbn [runCycles]. apply IH.
  - apply store_ids_stay_distinct; [done|]. intros anns Hfeed.
    eapply sublist_NoDup; [|apply (fmap_sublist ann_id), sublist_filter].
    apply (Hfeeds env); [apply elem_of_cons; by left|done].
  - intros env' anns Hin. apply Hfeeds, elem_of_cons. by right.
Qed.

End StoreIds.

(** ** Configuration read from the environment, and URL helpers *)

Section SetupFacts.
Import Stdlib.Strings.Ascii.
Import Setup NoticeEmbed.

Lemma split_nonempty sep s : split sep s ≠ [].
Proof.
  destruct s as [|c rest]; simpl; [done|].
  case_decide; [done|]. by destruct (split sep rest).
Qed.

Lemma split_app_sep sep a b :
  split sep (a +:+ String sep b) = split sep a ++ split sep b.
Proof.
  induction a as [|c a IH]; simpl.
  - by rewrite decide_True.
  - case_decide; [by rewrite IH|].
    rewrite IH. pose proof (split_nonempty sep a) as Hne.
    by destruct (split sep a).
Qed.

Lemma split_no_sep sep p : occurs sep p = false -> split sep p = [p].
Proof.
  induction p as [|c p IH]; simpl; [done|].
  case_decide; [done|]. intros Hocc. by rewrite IH.
Qed.

Lemma concat_split sep s : String.concat (String sep "") (split sep s) = s.
Proof.
  induction s as [|c s IH]; simpl; [done|].
  pose proof (split_nonempty sep s) as Hne.
  destruct (split sep s) as [|piece pieces]; [done|].
  case_decide.
  - subst c. simpl in *. by rewrite IH.
  - simpl in *. destruct pieces; by rewrite <- IH.
Qed.

Lemma split_concat sep (parts : list string) :
  parts ≠ [] -> Forall (fun p => occurs sep p = false) parts ->
  split sep (String.concat (String sep "") parts) = parts.
Proof.
  induction parts as [|p parts IH]; intros Hne Hall; [done|].
  apply Forall_cons in Hall as [Hp Hall].
  destruct parts as [|q parts].
  - simpl. by apply split_no_sep.
  - change (String.concat (String sep "") (p :: q :: parts))
      with (p +:+ String sep (String.concat (String sep "") (q :: parts))).
    rewrite split_app_sep, IH, split_no_sep by done. done.
Qed.

Lemma string_length_app (a b : string) :
  String.length (a +:+ b) = (String.length a + String.length b)%nat.
Proof. induction a as [|c a IH]; simpl; [done|]. by rewrite IH. Qed.

Lemma substring_all (s : string) n :
  (String.length s <= n)%nat -> String.substring 0 n s = s.
Proof.
  revert n. induction s as [|c s IH]; intros n Hn; [by destruct n|].
  destruct n as [|n]; simpl in *; [lia|]. rewrite IH; [done|lia].
Qed.

Lemma substring_prefix (a b : string) :
  String.substring 0 (String.length a) (a +:+ b) = a.
Proof.
  induction a as [|c a IH]; simpl; [by destruct b|]. by rewrite IH.
Qed.

Lemma substring_skip (a b : string) n :
  String.substring (String.length a) n (a +:+ b) = String.substring 0 n b.
Proof. induction a as [|c a IH]; simpl; done. Qed.

Lemma concat_nil_inv sep (parts : list string) :
  String.concat sep parts ≠ "" -> parts ≠ [].
Proof. by destruct parts. Qed.

(** X1. [WEBHOOK_URLS] is empty exactly when the variable is unset or
    empty; otherwise joining its entries with commas gives the variable
    back, and a non-empty comma-joined list of comma-free URLs is read
    back as that list. *)
Theorem urls_from_environment (v : option string) :
  (urlsOf v = [] <-> v = None \/ v = Some "")
  /\ (forall s, v = Some s -> s ≠ "" -> String.concat "," (urlsOf v) = s)
  /\ (forall urls,
        v = Some (String.concat "," urls) ->
        String.concat "," urls ≠ "" ->
        Forall (fun url => occurs "," url = false) urls ->
        urlsOf v = urls).
Proof.
  unfold urlsOf. split_and!.
  - destruct v as [[|c s]|]; cbn [truthy].
    + split; [by right|done].
    + split; [intros H; by destruct (split_nonempty _ _ H)|].
      by intros [?|?].
    + split; [by left|done].
  - intros s -> Hs. destruct s as [|c s]; [done|]. apply (concat_split ",").
  - intros urls -> Hne Hall.
    destruct (String.concat "," urls) as [|c s] eqn:E; [done|].
    cbn [truthy]. rewrite <- E. apply (split_concat ","); [|done].
    apply (concat_nil_inv ","). by rewrite E.
Qed.

Lemma urls_from_environment_witness :
  String.concat "," ["https://discord.com/api/webhooks/11/aa";
                     "https://discord.com/api/webhooks/22/bb"] ≠ ""
  /\ urlsOf (Some "https://discord.com/api/webhooks/11/aa,https://discord.com/api/webhooks/22/bb")
     = ["https://discord.com/api/webhooks/11/aa";
        "https://discord.com/api/webhooks/22/bb"].
Proof.
  assert (String.concat "," ["https://discord.com/api/webhooks/11/aa";
                             "https://discord.com/api/webhooks/22/bb"] ≠ "")
    as Hne by (vm_compute; discriminate).
  split; [exact Hne|].
  destruct (urls_from_environment
              (Some (String.concat "," ["https://discord.com/api/webhooks/11/aa";
                                        "https://discord.com/api/webhooks/22/bb"])))
    as (_ & _ & H).
  apply (H _ eq_refl Hne). repeat constructor.
Defined.

Lemma padNames_enough fuel urls names :
  (length urls - length names <= fuel)%nat ->
  padNames fuel urls names
  = names ++ (serverLabel <$> seq (length names + 1) (length urls - length names)).
Proof.
  revert names. induction fuel as [|fuel IH]; intros names Hfuel; simpl.
  - replace (length urls - length names)%nat with 0%nat by lia.
    by rewrite app_nil_r.
  - destruct (length names <? length urls)%nat eqn:Hlt.
    + apply Nat.ltb_lt in Hlt.
      assert (length urls - length (names ++ [serverLabel (length names + 1)])
              <= fuel)%nat as Hfuel'.
      { rewrite length_app. simpl. lia. }
      rewrite IH by done.
      rewrite length_app. simpl.
      replace (length urls - length names)%nat
        with (S (length urls - (length names + 1)))%nat by lia.
      simpl. rewrite <- app_assoc. simpl.
      by replace (length names + 1 + 1)%nat with (S (length names + 1)) by lia.
    + apply Nat.ltb_ge in Hlt.
      replace (length urls - length names)%nat with 0%nat by lia.
      by rewrite app_nil_r.
Qed.

Lemma serverLabel_nonempty n : serverLabel n ≠ "".
Proof. done. Qed.

Lemma lookup_padded (urls names : list string) i :
  (i < length urls)%nat ->
  (names ++ (serverLabel <$> seq (length names + 1) (length urls - length names)))
    !! i
  = Some (default (serverLabel (i + 1)) (names !! i)).
Proof.
  intros Hi. destruct (decide (i < length names)%nat) as [Hlt|Hge].
  - rewrite lookup_app_l by done.
    destruct (lookup_lt_is_Some_2 names i Hlt) as [name ->]. done.
  - rewrite lookup_app_r by lia. rewrite (lookup_ge_None_2 names i) by lia.
    rewrite list_lookup_fmap, lookup_seq_lt by lia. simpl.
    do 2 f_equal. lia.
Qed.

(** X2. After the module has padded [WEBHOOK_NAMES], every webhook has
    a name slot (the loop has left: more iterations change nothing),
    and the name [postToDiscord] uses for webhook [i] is never empty:
    it is the [i]-th comma-separated piece of the variable when that
    piece exists and is not empty, and [Server i+1] otherwise. *)
Theorem server_names_after_init penv (i : nat) :
  (i < length (WEBHOOK_URLS (configOf penv)))%nat ->
  (length (WEBHOOK_URLS (configOf penv))
   <= length (WEBHOOK_NAMES (configOf penv)))%nat
  /\ (forall fuel,
        (length (WEBHOOK_URLS (configOf penv)) <= fuel)%nat ->
        padNames fuel (WEBHOOK_URLS (configOf penv))
          (namesOf (env_WEBHOOK_NAMES penv) (WEBHOOK_URLS (configOf penv)))
        = WEBHOOK_NAMES (configOf penv))
  /\ serverNameOf (configOf penv) i ≠ ""
  /\ serverNameOf (configOf penv) i
     = match truthy (env_WEBHOOK_NAMES penv) with
       | Some s =>
           match split "," s !! i with
           | Some name => if decide (name = "") then serverLabel (i + 1) else name
           | None => serverLabel (i + 1)
           end
       | None => serverLabel (i + 1)
       end.
Proof.
  cbn [configOf WEBHOOK_URLS WEBHOOK_NAMES].
  set (urls := urlsOf (env_WEBHOOK_URLS penv)).
  set (raw := namesOf (env_WEBHOOK_NAMES penv) urls).
  intros Hi. rewrite padNames_enough by lia. split_and!.
  - rewrite length_app, length_fmap, length_seq. lia.
  - intros fuel Hfuel. by rewrite padNames_enough by lia.
  - unfold serverNameOf. cbn [configOf WEBHOOK_NAMES]. fold urls. fold raw.
    rewrite padNames_enough, lookup_padded by (done || lia).
    destruct (raw !! i) as [name|]; simpl; [|done]. by case_decide.
  - unfold serverNameOf. cbn [configOf WEBHOOK_NAMES]. fold urls. fold raw.
    rewrite padNames_enough, lookup_padded by (done || lia).
    unfold raw, namesOf. destruct (truthy (env_WEBHOOK_NAMES penv)) as [s|].
    + by destruct (split "," s !! i).
    + rewrite list_lookup_imap.
      destruct (lookup_lt_is_Some_2 urls i Hi) as [url ->]. done.
Qed.

Lemma server_names_after_init_witness :
  (2 < length (WEBHOOK_URLS
                 (configOf {| env_WEBHOOK_URLS := Some "u1,u2,u3";
                              env_WEBHOOK_NAMES := Some "Campus,";
                              env_GITHUB_TOKEN := None |})))%nat
  /\ serverNameOf (configOf {| env_WEBHOOK_URLS := Some "u1,u2,u3";
                               env_WEBHOOK_NAMES := Some "Campus,";
                               env_GITHUB_TOKEN := None |}) 2
     = serverLabel 3.
Proof.
  assert (2 < length (WEBHOOK_URLS
                 (configOf {| env_WEBHOOK_URLS := Some "u1,u2,u3";
                              env_WEBHOOK_NAMES := Some "Campus,";
                              env_GITHUB_TOKEN := None |})))%nat as Hi
    by (vm_compute; lia).
  split; [exact Hi|].
  destruct (server_names_after_init _ 2 Hi) as (_ & _ & _ & H).
  rewrite H. reflexivity.
Defined.

Lemma at_index_nat {A} (l : list A) (n : nat) (i : Z) :
  i = Z.of_nat n -> at_index l i = l !! n.
Proof.
  intros ->. unfold at_index.
  destruct (Z.ltb_spec (Z.of_nat n) 0) as [?|_]; [lia|]. by rewrite Nat2Z.id.
Qed.

(** X3. [getWebhookParts] reads the id and the token back from a URL
    that ends in [/id/token], whatever comes before, as long as neither
    contains a slash; on a string without any slash the id is
    [undefined] and the token is the whole string. It never throws. *)
Theorem webhook_parts_round_trip :
  (forall base id token,
     occurs "/" id = false -> occurs "/" token = false ->
     getWebhookParts (base +:+ "/" +:+ id +:+ "/" +:+ token)
     = {| wp_id := Some id; wp_token := Some token |})
  /\ (forall url,
        occurs "/" url = false ->
        getWebhookParts url = {| wp_id := None; wp_token := Some url |}).
Proof.
  split.
  - intros base id token Hid Htoken.
    change (base +:+ "/" +:+ id +:+ "/" +:+ token)
      with (base +:+ String "/" (id +:+ String "/" token)).
    unfold getWebhookParts.
    rewrite !split_app_sep, (split_no_sep _ id), (split_no_sep _ token) by done.
    set (pieces := split "/" base). f_equal.
    + rewrite (at_index_nat _ (length pieces)).
      * by rewrite lookup_app_r, Nat.sub_diag by lia.
      * rewrite !length_app. simpl. lia.
    + rewrite (at_index_nat _ (length pieces + 1)).
      * rewrite lookup_app_r by lia.
        by replace (length pieces + 1 - length pieces)%nat with 1%nat by lia.
      * rewrite !length_app. simpl. lia.
  - intros url Hurl. unfold getWebhookParts. by rewrite split_no_sep.
Qed.

Lemma webhook_parts_round_trip_witness :
  occurs "/" "1379882838371078284" = false
  /\ occurs "/" "pDlJwJXuJ_6yKBX8hrW2" = false
  /\ getWebhookParts
       "https://discord.com/api/webhooks/1379882838371078284/pDlJwJXuJ_6yKBX8hrW2"
     = {| wp_id := Some "1379882838371078284";
          wp_token := Some "pDlJwJXuJ_6yKBX8hrW2" |}.
Proof.
  assert (occurs "/" "1379882838371078284" = false) as Hid by reflexivity.
  assert (occurs "/" "pDlJwJXuJ_6yKBX8hrW2" = false) as Htoken by reflexivity.
  split; [exact Hid|]. split; [exact Htoken|].
  destruct webhook_parts_round_trip as [H _].
  apply (H "https://discord.com/api/webhooks" _ _ Hid Htoken).
Defined.

Lemma js_substring_range (s : string) (a b : Z) :
  0 <= a <= b -> b <= Z.of_nat (String.length s) ->
  js_substring s a b = String.substring (Z.to_nat a) (Z.to_nat (b - a)) s.
Proof.
  intros Hab Hb. unfold js_substring.
  rewrite (Z.min_l a), (Z.min_l b), (Z.max_r 0 a), (Z.max_r 0 b) by lia.
  by rewrite Z.min_l, Z.max_r by lia.
Qed.

Lemma js_substring_short (s : string) (a b : Z) :
  a <= 0 -> Z.of_nat (String.length s) <= b ->
  js_substring s a b = s.
Proof.
  intros Ha Hb. unfold js_substring.
  rewrite (Z.min_l a), (Z.min_r b), (Z.max_l 0 a), (Z.max_r 0 (Z.of_nat _)) by lia.
  rewrite Z.min_l, Z.max_r by lia. simpl.
  rewrite Z.sub_0_r, Nat2Z.id. by apply substring_all.
Qed.

(** X4. The masked URL shows the first 30 and the last 10 characters
    of a URL and nothing of what lies between them; a URL of at most 30
    characters is printed whole before the dots, and one of at most 10
    characters twice. *)
Theorem masked_url_shows :
  (forall pre mid suf,
     String.length pre = 30%nat -> String.length suf = 10%nat ->
     maskedUrl (pre +:+ mid +:+ suf) = pre +:+ "..." +:+ suf)
  /\ (forall url,
        (String.length url <= 30)%nat ->
        exists tail, maskedUrl url = url +:+ "..." +:+ tail)
  /\ (forall url,
        (String.length url <= 10)%nat ->
        maskedUrl url = url +:+ "..." +:+ url).
Proof.
  split_and!.
  - intros pre mid suf Hpre Hsuf. unfold maskedUrl.
    assert (String.length (pre +:+ mid +:+ suf)
            = (30 + String.length mid + 10)%nat) as Hlen.
    { rewrite !string_length_app. lia. }
    rewrite !js_substring_range by (rewrite ?Hlen; lia). rewrite Hlen.
    replace (Z.to_nat (30 - 0)) with (String.length pre) by lia.
    change (Z.to_nat 0) with 0%nat. rewrite substring_prefix.
    replace (Z.to_nat (Z.of_nat (30 + String.length mid + 10) - 10))
      with (String.length (pre +:+ mid))
      by (rewrite string_length_app; lia).
    replace (Z.to_nat (Z.of_nat (30 + String.length mid + 10)
                       - (Z.of_nat (30 + String.length mid + 10) - 10)))
      with 10%nat by lia.
    replace (pre +:+ mid +:+ suf) with ((pre +:+ mid) +:+ suf).
    + rewrite substring_skip, substring_all; [done|lia].
    + clear. induction pre as [|c pre IH]; [done|].
      change (String c ((pre +:+ mid) +:+ suf) = String c (pre +:+ mid +:+ suf)).
      by f_equal.
  - intros url Hlen. unfold maskedUrl. eexists.
    rewrite (js_substring_short url 0 30) by lia. reflexivity.
  - intros url Hlen. unfold maskedUrl.
    by rewrite !js_substring_short by lia.
Qed.

Lemma masked_url_shows_witness :
  String.length "https://discord.com/api/webhoo" = 30%nat
  /\ String.length "D-phyKFG_5" = 10%nat
  /\ maskedUrl "https://discord.com/api/webhooks/1379882838371078284/pDlJwJXuJ_6yD-phyKFG_5"
     = "https://discord.com/api/webhoo...D-phyKFG_5".
Proof.
  split; [reflexivity|]. split; [reflexivity|].
  destruct masked_url_shows as (H & _ & _).
  apply (H "https://discord.com/api/webhoo"
           "ks/1379882838371078284/pDlJwJXuJ_6y" "D-phyKFG_5");
    reflexivity.
Defined.

End SetupFacts.

(** ** The dispatcher's clock *)

Section DispatcherTiming.
Import NoticeEmbed.

Lemma retryLoop_clock sendTo schedule st :
  rs_clock (retryLoop sendTo schedule st)
  = rs_clock st + elapsedRun sendTo schedule.
Proof.
  revert st. induction schedule as [|k rest IH]; intros st; simpl; [lia|].
  destruct (raceSend k (sendTo k)) as [[m|] took]; simpl; [|done].
  rewrite IH. simpl. lia.
Qed.

Lemma webhookStep_clock cfg sendTo i st :
  ps_clock (webhookStep cfg sendTo i st) = ps_clock st + elapsedOn sendTo i.
Proof.
  unfold webhookStep, elapsedOn. cbn [ps_clock]. rewrite retryLoop_clock.
  simpl. lia.
Qed.

Lemma webhookLoop_clock cfg sendTo indices st :
  ps_clock (webhookLoop cfg sendTo indices st)
  = ps_clock st + sumZ (elapsedOn sendTo <$> indices).
Proof.
  unfold sumZ. revert st.
  induction indices as [|i rest IH]; intros st;
    cbn [webhookLoop fmap list_fmap foldr]; [lia|].
  rewrite IH, webhookStep_clock. lia.
Qed.

Lemma settledAt_sum cfg sendTo :
  settledAt (postEmbed cfg sendTo)
  = sumZ (elapsedOn sendTo <$> seq 0 (length (WEBHOOK_URLS cfg))).
Proof.
  cbn [postEmbed settledAt]. unfold deliver. rewrite webhookLoop_clock.
  cbn [ps_clock]. lia.
Qed.

Lemma timeoutMs_nonneg k : 0 <= timeoutMs k.
Proof. unfold timeoutMs. lia. Qed.

Lemma raceSend_took k b :
  (raceSend k b).2 <= timeoutMs k
  /\ (0 <= latency b -> 0 <= (raceSend k b).2).
Proof.
  pose proof (timeoutMs_nonneg k).
  destruct b as [ms|ms message]; simpl;
    destruct (Z.ltb_spec ms (timeoutMs k)); simpl; lia.
Qed.

Lemma raceSend_timeout k b :
  timeoutMs k <= latency b ->
  raceSend k b = (Some (timeoutMessage k), timeoutMs k).
Proof.
  intros H. destruct b as [ms|ms message]; simpl in *;
    destruct (Z.ltb_spec ms (timeoutMs k)); (done || lia).
Qed.

(** One target costs at most 10 + 2 + 20 + 4 + 30 s, and no negative
    time when no send does. *)
Lemma elapsedRun_bounds sendTo :
  elapsedRun sendTo (seq 1 3) <= 66000
  /\ ((forall k, 0 <= latency (sendTo k)) -> 0 <= elapsedRun sendTo (seq 1 3)).
Proof.
  pose proof (raceSend_took 1 (sendTo 1%nat)) as [H1 N1].
  pose proof (raceSend_took 2 (sendTo 2%nat)) as [H2 N2].
  pose proof (raceSend_took 3 (sendTo 3%nat)) as [H3 N3].
  unfold timeoutMs in *. simpl.
  destruct (raceSend 1 (sendTo 1%nat)) as [[m1|] t1];
    destruct (raceSend 2 (sendTo 2%nat)) as [[m2|] t2];
    destruct (raceSend 3 (sendTo 3%nat)) as [[m3|] t3];
    simpl in *; change (backoffDelay 1) with 2000;
    change (backoffDelay 2) with 4000;
    (split; [lia|intros Hn; specialize (N1 (Hn _)); specialize (N2 (Hn _));
                 specialize (N3 (Hn _)); lia]).
Qed.

Lemma sumZ_upper (f : nat -> Z) (hi : Z) (l : list nat) :
  (forall i, i ∈ l -> f i <= hi) ->
  sumZ (f <$> l) <= hi * Z.of_nat (length l).
Proof.
  unfold sumZ. induction l as [|i l IH]; intros H;
    cbn [fmap list_fmap foldr length]; [lia|].
  assert (f i <= hi) by (apply H, elem_of_cons; by left).
  assert (forall j, j ∈ l -> f j <= hi) as Hl
    by (intros j Hj; apply H, elem_of_cons; by right).
  specialize (IH Hl). lia.
Qed.

Lemma sumZ_lower (f : nat -> Z) (lo : Z) (l : list nat) :
  (forall i, i ∈ l -> lo <= f i) ->
  lo * Z.of_nat (length l) <= sumZ (f <$> l).
Proof.
  unfold sumZ. induction l as [|i l IH]; intros H;
    cbn [fmap list_fmap foldr length]; [lia|].
  assert (lo <= f i) by (apply H, elem_of_cons; by left).
  assert (forall j, j ∈ l -> lo <= f j) as Hl
    by (intros j Hj; apply H, elem_of_cons; by right).
  specialize (IH Hl). lia.
Qed.

Lemma sumZ_nonneg (f : nat -> Z) (l : list nat) :
  (forall i, i ∈ l -> 0 <= f i) -> 0 <= sumZ (f <$> l).
Proof.
  unfold sumZ. induction l as [|i l IH]; intros H;
    cbn [fmap list_fmap foldr]; [lia|].
  assert (0 <= f i) by (apply H, elem_of_cons; by left).
  assert (0 <= foldr Z.add 0 (f <$> l)); [|lia].
  apply IH. intros j Hj. apply H, elem_of_cons. by right.
Qed.

Lemma sumZ_member (f : nat -> Z) (l : list nat) (w : nat) :
  (forall i, i ∈ l -> 0 <= f i) -> w ∈ l -> f w <= sumZ (f <$> l).
Proof.
  induction l as [|i l IH]; intros Hnn Hw; [by apply elem_of_nil in Hw|].
  assert (0 <= f i) by (apply Hnn, elem_of_cons; by left).
  assert (forall j, j ∈ l -> 0 <= f j) as Hl
    by (intros j Hj; apply Hnn, elem_of_cons; by right).
  pose proof (sumZ_nonneg f l Hl) as Hsum.
  unfold sumZ in *. cbn [fmap list_fmap foldr].
  apply elem_of_cons in Hw as [->|Hw]; [lia|].
  specialize (IH Hl Hw). lia.
Qed.

Lemma discordSuccess_needs_time cfg env i ann :
  30000 <= settledAt (postEmbed cfg (send env i)) ->
  discordSuccess cfg env i ann = false.
Proof.
  intros H. unfold discordSuccess, racePosting, postToDiscord.
  destruct (embedError env ann) as [message|]; [done|].
  destruct (Z.ltb_spec (settledAt (postEmbed cfg (send env i))) 30000);
    [lia|done].
Qed.

Lemma unconfirmed_cycle_keeps_store cfg env w :
  (forall i ann, discordSuccess cfg env i ann = false) ->
  store (runCycle cfg env w).1 = store w
  /\ forall records, records ∈ writesOf (runCycle cfg env w).2 -> records = [].
Proof.
  intros Hnone.
  assert (forall anns, newRecords cfg env (knownIds w) anns = []) as Hnews.
  { intros anns. unfold newRecords. by rewrite confirmedOf_none. }
  assert (forall records : list PostedRecord,
            records ∈ match db_file w with
                      | Some (Parsable _) => []
                      | _ => [[]]
                      end -> records = []) as Hload.
  { intros records.
    destruct (db_file w) as [[raw|v]|];
      rewrite ?elem_of_nil, ?list_elem_of_singleton; done. }
  destruct (file_shape w) as [[text Hw]|Hw].
  { destruct (cycle_without_feed cfg env w) as (_ & -> & -> & _); [|done].
    left. intros H. by destruct (H text). }
  destruct (feed env) as [message|anns] eqn:Hfeed.
  { by destruct (cycle_without_feed cfg env w) as (_ & -> & -> & _); [eauto|]. }
  destruct (cycle_summary cfg env w anns Hw Hfeed) as (_ & -> & -> & _).
  by rewrite Hnews, !app_nil_r, writesOf_loadEvents.
Qed.

(** X5. A call of [postToDiscord] either is ended at once by the
    error of [EmbedBuilder], before any webhook has been tried, or
    tries every configured webhook and, as each one is followed by a
    pause of 1 s, does not settle before 1 s per configured webhook. *)
Theorem posting_time_lower_bound cfg (builder : Announcement -> option string)
    announcement sendTo :
  (forall w k, 0 <= latency (sendTo w k)) ->
  let posting := postToDiscord cfg builder announcement sendTo in
  (exists message,
     builder announcement = Some message
     /\ settles posting = inl message
     /\ settledAt posting = 0
     /\ attemptsMade posting = [])
  \/ (builder announcement = None
      /\ 1000 * Z.of_nat (length (WEBHOOK_URLS cfg)) <= settledAt posting
      /\ forall w, (w < length (WEBHOOK_URLS cfg))%nat ->
                   triesOn w (attemptsMade posting) ≠ []).
Proof.
  intros Hnn posting. subst posting.
  destruct (builder announcement) as [message|] eqn:Hbuilt.
  - left. exists message.
    by rewrite (postToDiscord_rejected _ _ _ _ message).
  - right. rewrite postToDiscord_built by done. split_and!; [done| |].
    + rewrite settledAt_sum.
      set (targets := seq 0 (length (WEBHOOK_URLS cfg))).
      assert (length targets = length (WEBHOOK_URLS cfg)) as <-
        by apply length_seq.
      apply sumZ_lower. intros i _. unfold elapsedOn.
      pose proof (elapsedRun_bounds (sendTo i)) as [_ Hlo].
      specialize (Hlo (Hnn i)). lia.
    + intros w Hw. cbn [postEmbed attemptsMade].
      rewrite deliver_tries, decide_True by done.
      by apply attemptsRun_nonempty.
Qed.

Lemma posting_time_lower_bound_witness :
  (forall w k, 0 <= latency (refusing w k))
  /\ 2000 <= settledAt (postToDiscord twoWebhooks titleCheck noticeA refusing)
  /\ settledAt (postToDiscord twoWebhooks titleCheck untitled refusing) = 0.
Proof.
  assert (forall w k, 0 <= latency (refusing w k)) as Hnn
    by (intros w k; simpl; lia).
  split; [exact Hnn|]. split.
  - destruct (posting_time_lower_bound twoWebhooks titleCheck noticeA refusing Hnn)
      as [(message & Hrej & _)|(_ & Hlo & _)]; [discriminate Hrej|].
    simpl length in Hlo. lia.
  - destruct (posting_time_lower_bound twoWebhooks titleCheck untitled refusing Hnn)
      as [(message & _ & _ & Hat & _)|(Hbuilt & _)]; [exact Hat|discriminate Hbuilt].
Defined.

(** X6. With 30 or more webhooks configured the pauses alone use up
    the 30 s that [main] allows a posting: no candidate is ever
    confirmed and no cycle adds a record, whatever Discord answers. *)
Theorem thirty_webhooks_never_confirm cfg env w :
  (30 <= length (WEBHOOK_URLS cfg))%nat ->
  (forall i target k, 0 <= latency (send env i target k)) ->
  (forall i ann, discordSuccess cfg env i ann = false)
  /\ store (runCycle cfg env w).1 = store w.
Proof.
  intros Hmany Hnn.
  assert (forall i ann, discordSuccess cfg env i ann = false) as Hnone.
  { intros i ann. apply discordSuccess_needs_time. rewrite settledAt_sum.
    assert (1000 * Z.of_nat (length (seq 0 (length (WEBHOOK_URLS cfg))))
            <= sumZ (elapsedOn (send env i) <$> seq 0 (length (WEBHOOK_URLS cfg))))
      as H; [|rewrite length_seq in H; lia].
    apply sumZ_lower. intros j _. unfold elapsedOn.
    pose proof (elapsedRun_bounds (send env i j)) as [_ Hlo].
    specialize (Hlo (Hnn i j)). lia. }
  split; [done|]. by apply unconfirmed_cycle_keeps_store.
Qed.

Lemma thirty_webhooks_never_confirm_witness :
  (30 <= length (WEBHOOK_URLS thirtyWebhooks))%nat
  /\ (forall i target k, 0 <= latency (send (promptEnv (inr [noticeA])) i target k))
  /\ store (runCycle thirtyWebhooks (promptEnv (inr [noticeA])) emptyWorld).1
     = store emptyWorld.
Proof.
  assert (30 <= length (WEBHOOK_URLS thirtyWebhooks))%nat as Hmany
    by (vm_compute; lia).
  assert (forall i target k,
            0 <= latency (send (promptEnv (inr [noticeA])) i target k)) as Hnn
    by (intros i target k; simpl; lia).
  split; [exact Hmany|]. split; [exact Hnn|].
  apply (thirty_webhooks_never_confirm thirtyWebhooks
           (promptEnv (inr [noticeA])) emptyWorld Hmany Hnn).
Defined.

(** X7. When the first two attempts on some webhook run into their
    timers (10 s and 20 s), the posting cannot settle within the 30 s
    of [main], whatever the third attempt and the other webhooks do:
    the candidate is not confirmed. *)
Theorem two_timeouts_lose_the_race cfg env i ann (target : nat) :
  (target < length (WEBHOOK_URLS cfg))%nat ->
  (forall t k, 0 <= latency (send env i t k)) ->
  timeoutMs 1 <= latency (send env i target 1%nat) ->
  timeoutMs 2 <= latency (send env i target 2%nat) ->
  (embedError env ann = None ->
   36000 <= settledAt (postToDiscord cfg (embedError env) ann (send env i)))
  /\ discordSuccess cfg env i ann = false.
Proof.
  intros Htarget Hnn H1 H2.
  assert (36000 <= settledAt (postEmbed cfg (send env i))) as Hlate.
  { rewrite settledAt_sum.
    assert (forall t, 0 <= elapsedOn (send env i) t) as Hpos.
    { intros t. unfold elapsedOn.
      pose proof (elapsedRun_bounds (send env i t)) as [_ Hlo].
      specialize (Hlo (Hnn t)). lia. }
    etrans; [|apply (sumZ_member _ _ target)].
    - unfold elapsedOn. cbn [seq elapsedRun].
      rewrite (raceSend_timeout 1), (raceSend_timeout 2) by done.
      pose proof (raceSend_took 3 (send env i target 3%nat)) as [_ N3].
      specialize (N3 (Hnn target 3%nat)).
      change (timeoutMs 1) with 10000. change (timeoutMs 2) with 20000.
      change (backoffDelay 1) with 2000. change (backoffDelay 2) with 4000.
      destruct (raceSend 3 (send env i target 3%nat)) as [[m3|] t3];
        simpl in *; lia.
    - intros t _. apply Hpos.
    - apply elem_of_seq. lia. }
  split; [|apply discordSuccess_needs_time; lia].
  intros Hbuilt. by rewrite postToDiscord_built.
Qed.

Lemma two_timeouts_lose_the_race_witness :
  (0 < length (WEBHOOK_URLS oneWebhook))%nat
  /\ (forall t k, 0 <= latency (send twiceHangingEnv 0 t k))
  /\ discordSuccess oneWebhook twiceHangingEnv 0 noticeA = false.
Proof.
  assert (0 < length (WEBHOOK_URLS oneWebhook))%nat as Htarget by (simpl; lia).
  assert (forall t k, 0 <= latency (send twiceHangingEnv 0 t k)) as Hnn.
  { intros t [|[|[|k]]]; simpl; lia. }
  split; [exact Htarget|]. split; [exact Hnn|].
  apply (two_timeouts_lose_the_race oneWebhook twiceHangingEnv 0 noticeA 0
           Htarget Hnn); vm_compute; discriminate.
Defined.

(** X8. Retrying stops at the first attempt that fulfils before its
    timer: when attempt [k] is the first such on a webhook, its slot in
    the result list of the loop is [{success: true, serverName}], with
    no error, and, the embed being built, exactly the attempts 1 to [k]
    are made on it. (When [EmbedBuilder] throws, none is.) *)
Theorem first_success_stops_retries cfg (builder : Announcement -> option string)
    announcement sendTo (target k : nat) :
  (target < length (WEBHOOK_URLS cfg))%nat ->
  (1 <= k <= 3)%nat ->
  succeedsAt (sendTo target) k = true ->
  (forall j, (1 <= j < k)%nat -> succeedsAt (sendTo target) j = false) ->
  let tries :=
    triesOn target
      (attemptsMade (postToDiscord cfg builder announcement sendTo)) in
  (builder announcement = None -> tries = seq 1 k)
  /\ (builder announcement ≠ None -> tries = [])
  /\ ps_results (deliver cfg sendTo) !! target
     = Some {| success := true; serverName := serverNameOf cfg target;
               error := None |}.
Proof.
  intros Htarget Hk Hok Hbefore tries. subst tries.
  assert (attemptsRun (sendTo target) (seq 1 3) = seq 1 k
          /\ existsb (succeedsAt (sendTo target)) (seq 1 3) = true) as [Hrun Hsome].
  { cbn [seq attemptsRun existsb].
    destruct k as [|[|[|[|k]]]]; try lia.
    - by rewrite Hok.
    - rewrite (Hbefore 1%nat), Hok by lia. done.
    - rewrite (Hbefore 1%nat), (Hbefore 2%nat), Hok by lia. done. }
  split_and!.
  - intros Hbuilt. rewrite postToDiscord_built by done.
    cbn [postEmbed attemptsMade]. by rewrite deliver_tries, decide_True.
  - intros Hrej. destruct (builder announcement) as [message|] eqn:Hb; [|done].
    by rewrite (postToDiscord_rejected _ _ _ _ message).
  - rewrite deliver_results_lookup by done. unfold outcomeOf. by rewrite Hsome.
Qed.

Lemma first_success_stops_retries_witness :
  (1 < length (WEBHOOK_URLS twoWebhooks))%nat
  /\ titleCheck noticeA = None
  /\ triesOn 1 (attemptsMade (postToDiscord twoWebhooks titleCheck noticeA secondTry))
     = [1; 2]%nat
  /\ ps_results (deliver twoWebhooks secondTry) !! 1%nat
     = Some {| success := true; serverName := "Server 2"; error := None |}.
Proof.
  assert (1 < length (WEBHOOK_URLS twoWebhooks))%nat as Htarget by (simpl; lia).
  assert (titleCheck noticeA = None) as Hbuilt by reflexivity.
  split; [exact Htarget|]. split; [exact Hbuilt|].
  destruct (first_success_stops_retries twoWebhooks titleCheck noticeA secondTry
              1 2 Htarget) as (Htries & _ & Hslot).
  - lia.
  - reflexivity.
  - intros j Hj. assert (j = 1%nat) as -> by lia. reflexivity.
  - split; [by apply Htries|exact Hslot].
Defined.

End DispatcherTiming.

(** ** Cycles in sequence: what the store and the clock of backups keep *)

Section CycleFacts.
Import NoticeEmbed.

Lemma store_after_cycle cfg env w :
  exists news,
    store (runCycle cfg env w).1 = store w ++ news
    /\ forall r, r ∈ news ->
         exists i ann,
           (i, ann) ∈ dispatchesOf (runCycle cfg env w).2
           /\ discordSuccess cfg env i ann = true
           /\ r = postedRecordOf env i ann.
Proof.
  destruct (file_shape w) as [[text Hw]|Hw].
  { exists []. destruct (cycle_without_feed cfg env w) as (_ & -> & _).
    - left. intros H. by destruct (H text).
    - rewrite app_nil_r. split; [done|]. by intros r ?%elem_of_nil. }
  destruct (feed env) as [message|anns] eqn:Hfeed.
  { exists []. destruct (cycle_without_feed cfg env w) as (_ & -> & _); [eauto|].
    rewrite app_nil_r. split; [done|]. by intros r ?%elem_of_nil. }
  destruct (cycle_summary cfg env w anns Hw Hfeed) as (Hdisp & Hst & _).
  exists (newRecords cfg env (knownIds w) anns). split; [done|].
  intros r (i & ann & -> & Hl & Hid & Hok)%elem_of_newRecords.
  exists i, ann. split_and!; [|done|done].
  rewrite Hdisp. by apply elem_of_toProcess.
Qed.

Lemma store_prefix_cycle cfg env w :
  store w `prefix_of` store (runCycle cfg env w).1.
Proof.
  destruct (store_after_cycle cfg env w) as (news & -> & _).
  by apply prefix_app_r.
Qed.

Lemma store_prefix_cycles cfg envs w :
  store w `prefix_of` store (runCycles cfg envs w).
Proof.
  revert w. induction envs as [|env rest IH]; intros w; [done|].
  cbn [runCycles]. etrans; [apply (store_prefix_cycle cfg env)|apply IH].
Qed.

Lemma discordSuccess_elim cfg env i ann :
  discordSuccess cfg env i ann = true ->
  settledAt (postToDiscord cfg (embedError env) ann (send env i)) < 30000
  /\ exists results,
       settles (postToDiscord cfg (embedError env) ann (send env i)) = inr results
       /\ exists outcome, outcome ∈ results /\ success outcome = true.
Proof.
  unfold discordSuccess, racePosting. intros H.
  destruct (Z.ltb_spec (settledAt (postToDiscord cfg (embedError env) ann (send env i))) 30000)
    as [Hlt|Hge]; [|done].
  split; [done|].
  destruct (settles (postToDiscord cfg (embedError env) ann (send env i))) as [m|results]; [done|].
  exists results. split; [done|].
  apply existsb_exists in H as (outcome & Hin & Hok).
  exists outcome. split; [by apply list_elem_of_In|done].
Qed.

Lemma holdsRecords_file (w w' : World) :
  holdsRecords w -> db_file w' = db_file (loadWorld w) -> holdsRecords w'.
Proof.
  intros Hw Hfile text. rewrite Hfile. unfold loadWorld.
  destruct (db_file w) as [[raw|v]|] eqn:E; simpl; rewrite ?E; try done.
  rewrite <- E. apply Hw.
Qed.

Lemma holdsRecords_runCycle cfg env w :
  holdsRecords w -> holdsRecords (runCycle cfg env w).1.
Proof.
  intros Hw. destruct (feed env) as [message|anns] eqn:Hfeed.
  - destruct (cycle_without_feed cfg env w) as (_ & _ & _ & Hfile); [eauto|].
    by apply (holdsRecords_file w).
  - destruct (cycle_summary cfg env w anns Hw Hfeed) as (_ & _ & _ & Hsave & Hidle).
    destruct (newRecords cfg env (knownIds w) anns) eqn:Hnews.
    + apply (holdsRecords_file w); [done|]. by apply Hidle.
    + intros text. by rewrite Hsave.
Qed.

(** X9. Over any sequence of cycles the store only grows at its end:
    the records it held are still there, unchanged and in the same
    order. *)
Theorem store_only_grows cfg envs w :
  store w `prefix_of` store (runCycles cfg envs w)
  /\ forall x, x ∈ storeIds w -> x ∈ storeIds (runCycles cfg envs w).
Proof.
  pose proof (store_prefix_cycles cfg envs w) as [news Hnews].
  split; [by exists news|].
  intros x Hx. unfold storeIds in *. rewrite Hnews, fmap_app, elem_of_app.
  by left.
Qed.

(** X10. An id that is in the store is never posted again: in no later
    cycle, whatever the feeds, is a candidate with that id dispatched. *)
Theorem recorded_id_never_reposted cfg envs env w x :
  x ∈ storeIds w ->
  forall i ann,
    (i, ann) ∈ dispatchesOf (runCycle cfg env (runCycles cfg envs w)).2 ->
    ann_id ann ≠ x.
Proof.
  intros Hx i ann Hd Heq.
  destruct (dispatched_inv _ _ _ _ _ Hd) as (_ & anns & _ & _ & Hid).
  apply Hid. rewrite Heq.
  pose proof (store_prefix_cycles cfg envs w) as [news Hnews].
  unfold storeIds in *. rewrite Hnews, fmap_app, elem_of_app. by left.
Qed.

Lemma recorded_id_never_reposted_witness :
  ann_id noticeA ∈ storeIds postedAWorld
  /\ (1%nat, noticeA) ∉ dispatchesOf
         (runCycle oneWebhook (promptEnv (inr [noticeB; noticeA]))
            (runCycles oneWebhook [promptEnv (inr [noticeA])] postedAWorld)).2.
Proof.
  assert (ann_id noticeA ∈ storeIds postedAWorld) as Hx
    by (apply elem_of_cons; by left).
  split; [exact Hx|]. intros Hd.
  by apply (recorded_id_never_reposted oneWebhook [promptEnv (inr [noticeA])]
              (promptEnv (inr [noticeB; noticeA])) postedAWorld _ Hx
              1%nat noticeA Hd).
Defined.

(** X11. Nothing is recorded without a delivery: every record the
    store gains in a cycle was made for a candidate dispatched in that
    cycle whose posting settled before the 30 s timer with a result
    that lists at least one success. *)
Theorem no_record_without_success cfg env w r :
  r ∈ store (runCycle cfg env w).1 -> r ∉ store w ->
  exists i ann,
    (i, ann) ∈ dispatchesOf (runCycle cfg env w).2
    /\ r = postedRecordOf env i ann
    /\ settledAt (postToDiscord cfg (embedError env) ann (send env i)) < 30000
    /\ exists results,
         settles (postToDiscord cfg (embedError env) ann (send env i)) = inr results
         /\ exists outcome, outcome ∈ results /\ success outcome = true.
Proof.
  intros Hin Hout. destruct (store_after_cycle cfg env w) as (news & Hst & Hnews).
  rewrite Hst in Hin. apply elem_of_app in Hin as [Hin|Hin]; [done|].
  destruct (Hnews r Hin) as (i & ann & Hd & Hok & ->).
  destruct (discordSuccess_elim cfg env i ann Hok) as [Htime Hres].
  exists i, ann. done.
Qed.

Lemma no_record_without_success_witness :
  postedRecordOf (promptEnv (inr [noticeA])) 0 noticeA
    ∈ store (runCycle oneWebhook (promptEnv (inr [noticeA])) emptyWorld).1
  /\ exists i ann,
       (i, ann) ∈ dispatchesOf
           (runCycle oneWebhook (promptEnv (inr [noticeA])) emptyWorld).2
       /\ postedRecordOf (promptEnv (inr [noticeA])) 0 noticeA
          = postedRecordOf (promptEnv (inr [noticeA])) i ann.
Proof.
  assert (postedRecordOf (promptEnv (inr [noticeA])) 0 noticeA
            ∈ store (runCycle oneWebhook (promptEnv (inr [noticeA])) emptyWorld).1)
    as Hin by (vm_compute; apply elem_of_cons; by left).
  split; [exact Hin|].
  destruct (no_record_without_success oneWebhook (promptEnv (inr [noticeA]))
              emptyWorld _ Hin) as (i & ann & Hd & Hr & _).
  - apply not_elem_of_nil.
  - exists i, ann. split; [exact Hd|exact Hr].
Defined.

Lemma loadWorld_file w :
  holdsRecords w -> db_file (loadWorld w) = Some (Parsable (JArray (store w))).
Proof.
  intros Hw. unfold loadWorld, store.
  destruct (db_file w) as [[raw|[rs|text]]|] eqn:E; simpl; rewrite ?E; try done.
  by destruct (Hw text).
Qed.

(** X12. A cycle saves at most once, only when the store has gained
    records, and what it saves is the whole new store; the only other
    write there can be is the [[]] that [loadPosted] puts in place of a
    missing or unparsable file. Unless the file held something other
    than an array, it holds exactly the store when the cycle ends. *)
Theorem at_most_one_save cfg env w :
  writesOf (runCycle cfg env w).2
  = match db_file w with Some (Parsable _) => [] | _ => [[]] end
    ++ (if decide (store (runCycle cfg env w).1 = store w) then []
        else [store (runCycle cfg env w).1])
  /\ (holdsRecords w ->
      db_file (runCycle cfg env w).1
      = Some (Parsable (JArray (store (runCycle cfg env w).1)))).
Proof.
  destruct (file_shape w) as [[text Hw]|Hw].
  { destruct (cycle_without_feed cfg env w) as (_ & Hst & Hwr & _).
    - left. intros H. by destruct (H text).
    - rewrite Hwr, Hst, decide_True, app_nil_r by done.
      split; [done|]. intros H. by destruct (H text). }
  destruct (feed env) as [message|anns] eqn:Hfeed.
  { destruct (cycle_without_feed cfg env w) as (_ & Hst & Hwr & Hfile); [eauto|].
    rewrite Hwr, Hst, Hfile, decide_True, app_nil_r by done.
    split; [done|]. intros _. by apply loadWorld_file. }
  destruct (cycle_summary cfg env w anns Hw Hfeed) as (_ & Hst & Hwr & Hsave & Hidle).
  rewrite Hwr, Hst, writesOf_loadEvents.
  destruct (newRecords cfg env (knownIds w) anns) as [|r news] eqn:Hnews.
  - rewrite !app_nil_r. rewrite decide_True by done. rewrite Hidle by done.
    rewrite !app_nil_r. split; [done|]. intros _. by apply loadWorld_file.
  - rewrite Hsave by done. rewrite decide_False; [done|].
    intros Heq. rewrite <- (app_nil_r (store w)) in Heq at 2.
    by apply app_inv_head in Heq.
Qed.

Lemma at_most_one_save_witness :
  holdsRecords postedAWorld
  /\ writesOf (runCycle oneWebhook (promptEnv (inr [noticeB; noticeA]))
                 postedAWorld).2
     = [store (runCycle oneWebhook (promptEnv (inr [noticeB; noticeA]))
                 postedAWorld).1].
Proof.
  assert (holdsRecords postedAWorld) as Hw by (intros text; discriminate).
  split; [exact Hw|].
  destruct (at_most_one_save oneWebhook (promptEnv (inr [noticeB; noticeA]))
              postedAWorld) as [H _].
  rewrite H. vm_compute. reflexivity.
Defined.

Lemma syncsOf_idleSync env w :
  syncsOf (idleSyncEvents env w)
  = if SYNC_INTERVAL_MS <=? now env - lastSyncTime w then 1%nat else 0%nat.
Proof. unfold idleSyncEvents. by destruct (_ <=? _). Qed.

Lemma lastSyncTime_idleSync cfg env w :
  lastSyncTime (idleSyncWorld cfg env w)
  = if (SYNC_INTERVAL_MS <=? now env - lastSyncTime w)
       && GITHUB_TOKEN cfg && github_ok env
    then now env else lastSyncTime w.
Proof.
  unfold idleSyncWorld. destruct (_ <=? _); [|done].
  by destruct (GITHUB_TOKEN cfg && github_ok env) eqn:E; simpl; rewrite E.
Qed.

(** The backups of a cycle and the [lastSyncTime] it leaves, case by
    case. *)
Lemma cycle_backups cfg env w :
  (store (runCycle cfg env w).1 ≠ store w
   /\ syncsOf (runCycle cfg env w).2 = 1%nat
   /\ lastSyncTime (runCycle cfg env w).1 = lastSyncTime w)
  \/ (store (runCycle cfg env w).1 = store w
      /\ syncsOf (runCycle cfg env w).2 = 0%nat
      /\ lastSyncTime (runCycle cfg env w).1 = lastSyncTime w
      /\ (~ holdsRecords w \/ (exists message, feed env = inl message)
          \/ feed env = inr []))
  \/ (store (runCycle cfg env w).1 = store w
      /\ (exists anns, holdsRecords w /\ feed env = inr anns /\ anns ≠ [])
      /\ syncsOf (runCycle cfg env w).2
         = (if SYNC_INTERVAL_MS <=? now env - lastSyncTime w then 1%nat else 0%nat)
      /\ lastSyncTime (runCycle cfg env w).1
         = if (SYNC_INTERVAL_MS <=? now env - lastSyncTime w)
              && GITHUB_TOKEN cfg && github_ok env
           then now env else lastSyncTime w).
Proof.
  destruct (file_shape w) as [[text Hw]|Hw].
  { right. left. rewrite (runCycle_not_an_array _ _ _ text) by done.
    split_and!; try done. left. intros H. by destruct (H text). }
  destruct (feed env) as [message|[|a anns]] eqn:Hfeed.
  - right. left. rewrite (runCycle_fetch_error _ _ _ message) by done.
    cbn [fst snd]. rewrite syncsOf_app, syncsOf_loadEvents, loadWorld_store,
      loadWorld_lastSyncTime. split_and!; eauto.
  - right. left. rewrite runCycle_empty_feed by done.
    cbn [fst snd]. rewrite syncsOf_app, syncsOf_loadEvents, loadWorld_store,
      loadWorld_lastSyncTime. split_and!; eauto.
  - rewrite (runCycle_candidates _ _ _ (a :: anns)) by done. cbv zeta.
    destruct (newRecords cfg env (knownIds w) (a :: anns)) as [|r news] eqn:Hnews;
      cbn [fst snd].
    + right. right.
      rewrite !syncsOf_app, syncsOf_loadEvents, syncsOf_processed,
        syncsOf_idleSync, store_idleSync, loadWorld_store,
        lastSyncTime_idleSync, loadWorld_lastSyncTime.
      split_and!; [done| |done|done]. exists (a :: anns). done.
    + left. rewrite !syncsOf_app, syncsOf_loadEvents, syncsOf_processed.
      split_and!; [|done|done]. cbn [store db_file].
      intros Heq. rewrite <- (app_nil_r (store w)) in Heq at 2.
      by apply app_inv_head in Heq.
Qed.

(** X13. A cycle that adds records to the store calls [syncToGitHub]
    exactly once and leaves [lastSyncTime] as it was, even when that
    backup succeeds: a backup after a save does not restart the
    cooldown. *)
Theorem save_triggers_one_backup cfg env w :
  store (runCycle cfg env w).1 ≠ store w ->
  syncsOf (runCycle cfg env w).2 = 1%nat
  /\ lastSyncTime (runCycle cfg env w).1 = lastSyncTime w.
Proof.
  intros Hne.
  by destruct (cycle_backups cfg env w)
    as [(_ & Hs & Ht)|[(Heq & _)|(Heq & _)]].
Qed.

Lemma save_triggers_one_backup_witness :
  store (runCycle oneWebhook (nextDayEnv (inr [noticeA])) emptyWorld).1
    ≠ store emptyWorld
  /\ lastSyncTime (runCycle oneWebhook (nextDayEnv (inr [noticeA])) emptyWorld).1
     = 0.
Proof.
  assert (store (runCycle oneWebhook (nextDayEnv (inr [noticeA])) emptyWorld).1
            ≠ store emptyWorld) as Hne by (vm_compute; discriminate).
  split; [exact Hne|].
  by destruct (save_triggers_one_backup oneWebhook
                 (nextDayEnv (inr [noticeA])) emptyWorld Hne) as [_ ->].
Defined.

(** X14. A cycle over a non-empty feed that adds no record calls
    [syncToGitHub] exactly when at least [SYNC_INTERVAL_MS] (24 h) have
    passed since [lastSyncTime], and moves [lastSyncTime] to the
    current time only when that backup succeeds (a token is configured
    and GitHub accepts); a failed backup is tried again next cycle. *)
Theorem idle_backup_is_time_gated cfg env w anns :
  holdsRecords w -> feed env = inr anns -> anns ≠ [] ->
  store (runCycle cfg env w).1 = store w ->
  syncsOf (runCycle cfg env w).2
  = (if SYNC_INTERVAL_MS <=? now env - lastSyncTime w then 1%nat else 0%nat)
  /\ lastSyncTime (runCycle cfg env w).1
     = if (SYNC_INTERVAL_MS <=? now env - lastSyncTime w)
          && GITHUB_TOKEN cfg && github_ok env
       then now env else lastSyncTime w.
Proof.
  intros Hw Hfeed Hne Hsame.
  destruct (cycle_backups cfg env w)
    as [(Hdiff & _)|[(_ & _ & _ & Hno)|(_ & _ & Hs & Ht)]]; [done| |done].
  destruct Hno as [Hno|[[message Hm]|Hempty]]; [done| |]; congruence.
Qed.

Lemma idle_backup_is_time_gated_witness :
  holdsRecords postedAWorld
  /\ store (runCycle oneWebhook (nextDayEnv (inr [noticeA])) postedAWorld).1
     = store postedAWorld
  /\ syncsOf (runCycle oneWebhook (nextDayEnv (inr [noticeA])) postedAWorld).2
     = 1%nat
  /\ lastSyncTime (runCycle oneWebhook (nextDayEnv (inr [noticeA])) postedAWorld).1
     = 90000000.
Proof.
  assert (holdsRecords postedAWorld) as Hw by (intros text; discriminate).
  assert (store (runCycle oneWebhook (nextDayEnv (inr [noticeA])) postedAWorld).1
          = store postedAWorld) as Hsame by (vm_compute; reflexivity).
  split; [exact Hw|]. split; [exact Hsame|].
  apply (idle_backup_is_time_gated oneWebhook (nextDayEnv (inr [noticeA]))
           postedAWorld [noticeA] Hw eq_refl); [discriminate|exact Hsame].
Defined.

(** X15. [lastSyncTime] never goes back: over any sequence of cycles it
    stays where it was or moves forward. *)
Theorem last_sync_time_never_goes_back cfg envs w :
  lastSyncTime w <= lastSyncTime (runCycles cfg envs w).
Proof.
  revert w. induction envs as [|env rest IH]; intros w; cbn [runCycles]; [lia|].
  etrans; [|apply IH].
  destruct (cycle_backups cfg env w)
    as [(_ & _ & ->)|[(_ & _ & -> & _)|(_ & _ & _ & ->)]]; [lia|lia|].
  destruct (Z.leb_spec SYNC_INTERVAL_MS (now env - lastSyncTime w)) as [Hle|Hgt];
    [|simpl; lia].
  unfold SYNC_INTERVAL_MS in Hle.
  destruct (GITHUB_TOKEN cfg), (github_ok env); simpl; lia.
Qed.

(** X16. A state file that parses to something other than an array
    is never repaired: every cycle stops at [posted.map] with an error
    before the feed is fetched, dispatches and writes nothing, and
    leaves the state exactly as it was, cycle after cycle. *)
Theorem non_array_state_blocks_the_bot cfg w text :
  db_file w = Some (Parsable (JOther text)) ->
  (forall env,
     runCycle cfg env w
     = (w, [EvLog (LogErrorInMain (mapTypeError text))]))
  /\ forall envs, runCycles cfg envs w = w.
Proof.
  intros Hw.
  assert (forall env, runCycle cfg env w
            = (w, [EvLog (LogErrorInMain (mapTypeError text))]))
    as Hstuck by (intros env; by apply (runCycle_not_an_array _ _ _ text)).
  split; [done|].
  induction envs as [|env rest IH]; [done|].
  cbn [runCycles]. by rewrite Hstuck.
Qed.

Lemma non_array_state_blocks_the_bot_witness :
  db_file objectWorld = Some (Parsable (JOther "{}"))
  /\ runCycles oneWebhook
       [promptEnv (inr [noticeA]); nextDayEnv (inr [noticeB; noticeA])]
       objectWorld
     = objectWorld.
Proof.
  split; [reflexivity|].
  by destruct (non_array_state_blocks_the_bot oneWebhook objectWorld "{}" eq_refl)
    as [_ ->].
Defined.

(** X17. A candidate that was dispatched and not confirmed stays a
    candidate: provided no other element of that feed with the same id
    was confirmed, the next cycle dispatches every element of its feed
    that carries the id. *)
Theorem unconfirmed_candidate_is_retried cfg env1 env2 w i ann anns2 j ann2 :
  (i, ann) ∈ dispatchesOf (runCycle cfg env1 w).2 ->
  (forall anns k other,
     feed env1 = inr anns -> anns !! k = Some other ->
     ann_id other = ann_id ann -> discordSuccess cfg env1 k other = false) ->
  feed env2 = inr anns2 -> anns2 !! j = Some ann2 ->
  ann_id ann2 = ann_id ann ->
  (j, ann2) ∈ dispatchesOf (runCycle cfg env2 (runCycle cfg env1 w).1).2.
Proof.
  intros Hd Hfail Hfeed2 Hj Hid.
  pose proof (failed_delivery_is_not_recorded cfg env1 w i ann Hd Hfail) as Hout.
  destruct (dispatched_inv cfg env1 w i ann Hd) as (Hw & _).
  pose proof (holdsRecords_runCycle cfg env1 w Hw) as Hw1.
  destruct (cycle_summary cfg env2 _ anns2 Hw1 Hfeed2) as (-> & _).
  apply elem_of_toProcess. split; [done|].
  rewrite elem_of_knownIds. by rewrite Hid.
Qed.

Lemma unconfirmed_candidate_is_retried_witness :
  (0%nat, noticeA) ∈ dispatchesOf (runCycle oneWebhook slowEnv emptyWorld).2
  /\ (0%nat, noticeA) ∈ dispatchesOf
        (runCycle oneWebhook (promptEnv (inr [noticeA]))
           (runCycle oneWebhook slowEnv emptyWorld).1).2.
Proof.
  assert ((0%nat, noticeA)
            ∈ dispatchesOf (runCycle oneWebhook slowEnv emptyWorld).2) as Hd
    by (vm_compute; apply elem_of_cons; by left).
  split; [exact Hd|].
  apply (unconfirmed_candidate_is_retried oneWebhook slowEnv
           (promptEnv (inr [noticeA])) emptyWorld 0 noticeA [noticeA] 0 noticeA Hd);
    try reflexivity.
  intros anns k other [= <-] Hk _.
  destruct k as [|k]; [|by destruct k].
  injection Hk as <-. reflexivity.
Defined.

Lemma quiet_loadEvents w : EvLog LogNoneCouldBePosted ∉ loadEvents w.
Proof.
  unfold loadEvents. intros Hin.
  destruct (db_file w) as [[raw|v]|];
    repeat (apply elem_of_cons in Hin as [Hin|Hin]; [discriminate|]);
    by apply elem_of_nil in Hin.
Qed.

Lemma quiet_eventsFor cfg env p : EvLog LogNoneCouldBePosted ∉ eventsFor cfg env p.
Proof.
  unfold eventsFor, postingLog. intros Hin.
  repeat (apply elem_of_cons in Hin as [Hin|Hin];
          [repeat case_match; discriminate|]).
  by apply elem_of_nil in Hin.
Qed.

(** X24. The line [No announcements were saved because none could be
    posted] is never printed: [newPosted] is set only together with a
    push onto [successfulAnnouncements], so the [else if (newPosted)]
    branch of [main] cannot be reached, and a cycle whose candidates
    all failed ends in the idle branch like one without candidates. *)
Theorem none_could_be_posted_is_unreachable cfg env w :
  EvLog LogNoneCouldBePosted ∉ (runCycle cfg env w).2.
Proof.
  destruct (file_shape w) as [[text Hw]|Hw].
  - rewrite (runCycle_not_an_array _ _ _ text) by done. cbn [snd].
    intros Hin. by apply list_elem_of_singleton in Hin.
  - destruct (feed env) as [message|announcements] eqn:Hfeed.
    + rewrite (runCycle_fetch_error _ _ _ message) by done. cbn [snd].
      intros [Hin|Hin]%elem_of_app; [by apply quiet_loadEvents in Hin|].
      by apply list_elem_of_singleton in Hin.
    + destruct announcements as [|a l].
      * rewrite runCycle_empty_feed by done. cbn [snd].
        intros [Hin|Hin]%elem_of_app; [by apply quiet_loadEvents in Hin|].
        by apply list_elem_of_singleton in Hin.
      * rewrite (runCycle_candidates _ _ _ (a :: l)) by done. cbv zeta.
        assert (EvLog LogNoneCouldBePosted
                ∉ toProcess (knownIds w) (a :: l) ≫= eventsFor cfg env) as Hloop.
        { intros (p & Hin & _)%list_elem_of_bind.
          by apply quiet_eventsFor in Hin. }
        destruct (newRecords cfg env (knownIds w) (a :: l)); cbn [snd];
          intros [Hin|[Hin|Hin]%elem_of_app]%elem_of_app;
          try (by apply quiet_loadEvents in Hin); try done.
        -- apply elem_of_app in Hin as [Hin|Hin];
             [by apply list_elem_of_singleton in Hin|].
           unfold idleSyncEvents in Hin. case_match;
             [by apply list_elem_of_singleton in Hin|by apply elem_of_nil in Hin].
        -- repeat (apply elem_of_cons in Hin as [Hin|Hin]; [discriminate|]).
           by apply elem_of_nil in Hin.
Qed.

End CycleFacts.

(** ** The variant without retries *)

Section Part001Facts.

Lemma p1_webhookLoop_results cfg sendTo indices results :
  Part001.webhookLoop cfg sendTo indices results
  = results ++ (p1Outcome cfg sendTo <$> indices).
Proof.
  revert results. induction indices as [|i rest IH]; intros results; simpl.
  - by rewrite app_nil_r.
  - rewrite IH, <- app_assoc. done.
Qed.

Lemma p1_postToDiscord_run cfg (builder : Announcement -> option string)
    ann sendTo w :
  Part001.postToDiscord cfg builder ann sendTo w
  = match builder ann with
    | Some message => (Thrown message, w, [])
    | None =>
        if p1Throws cfg sendTo
        then (Thrown "Failed to post to all Discord webhooks", w, [])
        else (Normal (p1Results cfg sendTo), w, [])
    end.
Proof.
  unfold Part001.postToDiscord, p1Throws, p1Results.
  destruct (builder ann) as [message|]; [done|].
  rewrite p1_webhookLoop_results. simpl.
  by destruct (_ && _).
Qed.

Lemma p1_candidateLoop_run cfg env ids announcements k st w :
  (k <= length announcements)%nat ->
  Part001.candidateLoop cfg env ids announcements k st w
  = ((p1Loop cfg env (toProcess ids (take k announcements)) st).1, w,
     (p1Loop cfg env (toProcess ids (take k announcements)) st).2).
Proof.
  revert st. induction k as [|i IH]; intros st Hk.
  - by rewrite take_0.
  - destruct (lookup_lt_is_Some_2 announcements i) as [ann Hann]; [lia|].
    cbn [Part001.candidateLoop]. rewrite Hann.
    rewrite (take_S_r _ _ _ Hann), toProcess_snoc.
    rewrite length_take, Nat.min_l by lia.
    case_decide; cbn [app].
    + by rewrite IH by lia.
    + cbn [p1Loop fst snd]. unfold mbind, M_bind, bind, emit.
      rewrite p1_postToDiscord_run. unfold p1Thrown. cbn [fst snd].
      destruct (embedError env ann) as [message|]; [done|].
      destruct (p1Throws cfg (send env i)); [done|].
      rewrite IH by lia. cbn [fst].
      by destruct (p1Loop cfg env _ _).
Qed.

Lemma p1Throws_true cfg sendTo :
  WEBHOOK_URLS cfg ≠ [] ->
  (forall t, (t < length (WEBHOOK_URLS cfg))%nat ->
     exists ms message, sendTo t 1%nat = Rejects ms message) ->
  p1Throws cfg sendTo = true.
Proof.
  intros Hne Hall. unfold p1Throws, p1Results.
  rewrite length_fmap, length_seq. apply andb_true_intro. split.
  - apply Nat.ltb_lt. destruct (WEBHOOK_URLS cfg); [done|simpl; lia].
  - apply forallb_forall. intros r Hr%list_elem_of_In.
    apply list_elem_of_fmap in Hr as (t & -> & Ht). apply elem_of_seq in Ht.
    destruct (Hall t) as (ms & message & Hsend); [lia|].
    unfold p1Outcome. by rewrite Hsend.
Qed.

Lemma p1Throws_false cfg sendTo :
  WEBHOOK_URLS cfg = []
  \/ (exists t ms, (t < length (WEBHOOK_URLS cfg))%nat
                   /\ sendTo t 1%nat = Resolves ms) ->
  p1Throws cfg sendTo = false.
Proof.
  unfold p1Throws, p1Results. intros [Hnone|(t & ms & Ht & Hsend)].
  - by rewrite Hnone.
  - apply andb_false_intro2. apply not_true_is_false. intros Hall.
    rewrite forallb_forall in Hall.
    assert (negb (success (p1Outcome cfg sendTo t)) = true) as Hbad.
    { apply Hall, list_elem_of_In, list_elem_of_fmap.
      exists t. split; [done|]. apply elem_of_seq. lia. }
    unfold p1Outcome in Hbad. by rewrite Hsend in Hbad.
Qed.

Lemma p1Thrown_none cfg env p :
  embedError env p.2 = None -> p1Throws cfg (send env p.1) = false ->
  p1Thrown cfg env p = None.
Proof. intros Hbuilt Hok. unfold p1Thrown. by rewrite Hbuilt, Hok. Qed.

Lemma p1Loop_all_posted cfg env (l : list (nat * Announcement)) st :
  (forall p, p ∈ l -> p1Thrown cfg env p = None) ->
  p1Loop cfg env l st
  = (Normal (st.1 ++ ((fun p => postedRecordOf env p.1 p.2) <$> l),
             match l with [] => st.2 | _ => true end),
     (fun p => EvPostToDiscord p.1 p.2) <$> l).
Proof.
  revert st. induction l as [|p l IH]; intros [posted flag] Hok.
  - cbn. by rewrite app_nil_r.
  - cbn [p1Loop]. rewrite Hok by (apply elem_of_cons; by left).
    rewrite IH by (intros q Hq; apply Hok, elem_of_cons; by right).
    cbn. rewrite <- app_assoc. by destruct l.
Qed.

Lemma p1Loop_aborts cfg env (l : list (nat * Announcement)) st p :
  p ∈ l -> p1Thrown cfg env p ≠ None ->
  exists message events,
    p1Loop cfg env l st = (Thrown message, events)
    /\ writesOf events = [] /\ syncsOf events = 0%nat.
Proof.
  revert st. induction l as [|q l IH]; intros st Hin Hthrow.
  - by apply elem_of_nil in Hin.
  - cbn [p1Loop]. destruct (p1Thrown cfg env q) as [message|] eqn:Hq.
    + by eexists _, _.
    + apply elem_of_cons in Hin as [->|Hin]; [congruence|].
      destruct (IH (st.1 ++ [postedRecordOf env q.1 q.2], true) Hin Hthrow)
        as (message & events & -> & Hwr & Hsy).
      eexists _, _. split; [done|]. done.
Qed.

Lemma p1_loadPosted_run w :
  p1Loads w -> Part001.loadPosted w = (Normal (JArray (store w)), w, []).
Proof.
  unfold Part001.loadPosted, store. intros [H|[records H]];
    unfold mbind, M_bind, bind, get_world; simpl; by rewrite H.
Qed.

Lemma p1_syncIfNeeded_run cfg env w :
  exists w' events,
    Part001.syncIfNeeded cfg env w = (Normal tt, w', events)
    /\ db_file w' = db_file w /\ writesOf events = []
    /\ dispatchesOf events = [].
Proof.
  unfold Part001.syncIfNeeded, Part001.syncToGitHub.
  unfold mbind, M_bind, mret, M_ret, bind, ret, emit, get_world, put_world.
  simpl. destruct (_ <=? _); [|by eexists _, _].
  destruct (GITHUB_TOKEN cfg); simpl; [|by eexists _, _].
  destruct (db_file w) eqn:E; simpl; [|by eexists _, _].
  destruct (github_ok env); simpl; by eexists _, _.
Qed.

Lemma p1_runCycle_empty cfg env w :
  p1Loads w -> feed env = inr [] ->
  Part001.runCycle cfg env w = (w, [EvLog LogNoAnnouncementsInFeed]).
Proof.
  intros Hw Hfeed.
  unfold Part001.runCycle, Part001.main, Part001.mainBody, try_catch.
  unfold mbind at 1, M_bind, bind. rewrite p1_loadPosted_run by done.
  rewrite Hfeed. reflexivity.
Qed.

Lemma p1_runCycle_candidates cfg env w announcements :
  p1Loads w -> feed env = inr announcements -> announcements ≠ [] ->
  Part001.runCycle cfg env w
  = match p1Loop cfg env (toProcess (knownIds w) announcements) (store w, false) with
    | (Thrown message, events) =>
        (w, events ++ [EvLog (LogErrorInMain message)])
    | (Normal (posted', true), events) =>
        ({| db_file := Some (Parsable (JArray posted'));
            lastSyncTime := lastSyncTime w |},
         events ++ [EvWriteFile posted';
                    EvLog (LogUpdatedDatabase (length posted' - length (store w)));
                    EvSyncToGitHub])
    | (Normal (posted', false), events) =>
        ((Part001.syncIfNeeded cfg env w).1.2,
         events ++ [EvLog LogNoNewAnnouncements]
           ++ (Part001.syncIfNeeded cfg env w).2)
    end.
Proof.
  intros Hw Hfeed Hne.
  unfold Part001.runCycle, Part001.main, Part001.mainBody, try_catch.
  unfold mbind at 1, M_bind, bind. rewrite p1_loadPosted_run by done.
  rewrite Hfeed. fold (storeIds w). fold (knownIds w).
  rewrite decide_False by (by destruct announcements). unfold mbind at 1.
  rewrite p1_candidateLoop_run by done. rewrite firstn_all.
  destruct (p1Loop cfg env (toProcess (knownIds w) announcements) (store w, false))
    as [[[posted' [|]]|message] events]; cbn [fst snd].
  - unfold Part001.savePosted, mbind, M_bind, bind, log, emit.
    rewrite writeDb_run. unfold Part001.syncToGitHub.
    unfold mbind, M_bind, mret, M_ret, bind, ret, emit, get_world. cbn.
    destruct (GITHUB_TOKEN cfg); cbn; by rewrite ?app_nil_r.
  - destruct (p1_syncIfNeeded_run cfg env w) as (w' & es & Hrun & _).
    unfold mbind, M_bind, bind, log, emit. rewrite Hrun. cbn.
    by rewrite ?app_nil_r.
  - cbn. by rewrite ?app_nil_r.
Qed.

(** What a cycle of [part_001] leaves, on a state that loads and a
    fetched feed. *)
Lemma p1_cycle_run cfg env w announcements :
  p1Loads w -> feed env = inr announcements ->
  match p1Loop cfg env (toProcess (knownIds w) announcements) (store w, false) with
  | (Thrown message, events) =>
      (Part001.runCycle cfg env w).1 = w
      /\ dispatchesOf (Part001.runCycle cfg env w).2 = dispatchesOf events
      /\ writesOf (Part001.runCycle cfg env w).2 = writesOf events
  | (Normal (posted', true), events) =>
      db_file (Part001.runCycle cfg env w).1 = Some (Parsable (JArray posted'))
      /\ dispatchesOf (Part001.runCycle cfg env w).2 = dispatchesOf events
      /\ writesOf (Part001.runCycle cfg env w).2 = writesOf events ++ [posted']
  | (Normal (posted', false), events) =>
      db_file (Part001.runCycle cfg env w).1 = db_file w
      /\ dispatchesOf (Part001.runCycle cfg env w).2 = dispatchesOf events
      /\ writesOf (Part001.runCycle cfg env w).2 = writesOf events
  end.
Proof.
  intros Hw Hfeed. destruct announcements as [|a anns].
  { rewrite p1_runCycle_empty, toProcess_nil by done. done. }
  rewrite (p1_runCycle_candidates _ _ _ (a :: anns)) by done.
  destruct (p1Loop cfg env (toProcess (knownIds w) (a :: anns)) (store w, false))
    as [[[posted' [|]]|message] events]; cbn [fst snd].
  - rewrite !dispatchesOf_app, !writesOf_app. cbn. by rewrite app_nil_r.
  - destruct (p1_syncIfNeeded_run cfg env w) as (w' & es & Hrun & Hfile & Hwr & Hd).
    rewrite Hrun. cbn [fst snd].
    rewrite !dispatchesOf_app, !writesOf_app, Hwr, Hd. cbn.
    by rewrite !app_nil_r.
  - rewrite !dispatchesOf_app, !writesOf_app. cbn. by rewrite !app_nil_r.
Qed.

Lemma dispatchesOf_posts (l : list (nat * Announcement)) :
  dispatchesOf ((fun p => EvPostToDiscord p.1 p.2) <$> l) = l.
Proof.
  unfold dispatchesOf. induction l as [|[i ann] l IH]; [done|].
  simpl. by f_equal.
Qed.

Lemma p1_store_of_file (w w' : World) records :
  db_file w' = Some (Parsable (JArray records)) -> store w' = records.
Proof. unfold store. by intros ->. Qed.

(** A cycle of [part_001] in which no posting throws. *)
Lemma p1_cycle_all_posted cfg env w announcements :
  p1Loads w -> feed env = inr announcements ->
  (forall p, p ∈ toProcess (knownIds w) announcements ->
             p1Thrown cfg env p = None) ->
  dispatchesOf (Part001.runCycle cfg env w).2
  = toProcess (knownIds w) announcements
  /\ store (Part001.runCycle cfg env w).1
     = store w ++ ((fun p => postedRecordOf env p.1 p.2)
                     <$> toProcess (knownIds w) announcements).
Proof.
  intros Hw Hfeed Hok.
  pose proof (p1_cycle_run cfg env w announcements Hw Hfeed) as Hrun.
  rewrite (p1Loop_all_posted _ _ _ _ Hok) in Hrun. cbn [fst snd] in Hrun.
  destruct (toProcess (knownIds w) announcements) as [|p l] eqn:Hl.
  - destruct Hrun as (Hfile & Hd & _). rewrite Hd. split; [done|].
    unfold store. rewrite Hfile. cbn. by rewrite app_nil_r.
  - destruct Hrun as (Hfile & Hd & _). rewrite Hd, dispatchesOf_posts.
    split; [done|]. by apply (p1_store_of_file w).
Qed.

(** X18. In [part_001] one announcement that every webhook rejects
    ends the cycle on the spot: [postToDiscord] throws out of the loop,
    nothing is saved, and the state is left exactly as it was, without
    the records of the announcements posted before it in the same
    cycle. *)
Theorem part001_failure_aborts_cycle cfg env w announcements i ann :
  p1Loads w -> feed env = inr announcements ->
  announcements !! i = Some ann -> ann_id ann ∉ storeIds w ->
  WEBHOOK_URLS cfg ≠ [] ->
  (forall t, (t < length (WEBHOOK_URLS cfg))%nat ->
     exists ms message, send env i t 1%nat = Rejects ms message) ->
  (Part001.runCycle cfg env w).1 = w
  /\ writesOf (Part001.runCycle cfg env w).2 = [].
Proof.
  intros Hw Hfeed Hi Hid Hne Hrej.
  assert ((i, ann) ∈ toProcess (knownIds w) announcements) as Hin.
  { apply elem_of_toProcess. split; [done|]. by rewrite elem_of_knownIds. }
  assert (p1Thrown cfg env (i, ann) ≠ None) as Hthrow.
  { unfold p1Thrown. cbn [fst snd].
    destruct (embedError env ann) as [message|]; [done|].
    by rewrite (p1Throws_true cfg (send env i) Hne Hrej). }
  destruct (p1Loop_aborts cfg env _ (store w, false) (i, ann) Hin Hthrow)
    as (message & events & Hloop & Hwr & _).
  pose proof (p1_cycle_run cfg env w announcements Hw Hfeed) as Hrun.
  rewrite Hloop in Hrun. destruct Hrun as (Hsame & _ & Hwrites).
  by rewrite Hwrites.
Qed.

Lemma part001_failure_aborts_cycle_witness :
  p1Loads emptyWorld
  /\ (ann_id noticeB ∉ storeIds emptyWorld)
  /\ (Part001.runCycle oneWebhook flakyEnv emptyWorld).1 = emptyWorld
  /\ writesOf (Part001.runCycle oneWebhook flakyEnv emptyWorld).2 = [].
Proof.
  assert (p1Loads emptyWorld) as Hw by (right; eexists; reflexivity).
  assert (ann_id noticeB ∉ storeIds emptyWorld) as Hid by apply not_elem_of_nil.
  split; [exact Hw|]. split; [exact Hid|].
  apply (part001_failure_aborts_cycle oneWebhook flakyEnv emptyWorld
           [noticeB; noticeA] 0 noticeB Hw eq_refl eq_refl Hid).
  - discriminate.
  - intros t Ht. eexists _, _. reflexivity.
Defined.

(** X19. In [part_001], when the embed of every unknown candidate is
    built and every one of them is accepted by at least one webhook,
    the cycle dispatches the unknown candidates from the last element
    of the feed to the first and the store ends as the loaded store
    followed by their records, with their ids, in that order. *)
Theorem part001_records_every_posted cfg env w announcements :
  p1Loads w -> feed env = inr announcements ->
  (forall i ann,
     announcements !! i = Some ann -> ann_id ann ∉ storeIds w ->
     embedError env ann = None
     /\ exists t ms, (t < length (WEBHOOK_URLS cfg))%nat
                     /\ send env i t 1%nat = Resolves ms) ->
  dispatchesOf (Part001.runCycle cfg env w).2
  = filter (fun p => ann_id p.2 ∉ storeIds w) (reverse (imap pair announcements))
  /\ store (Part001.runCycle cfg env w).1
     = store w ++ ((fun p => postedRecordOf env p.1 p.2)
                     <$> filter (fun p => ann_id p.2 ∉ storeIds w)
                           (reverse (imap pair announcements)))
  /\ storeIds (Part001.runCycle cfg env w).1
     = storeIds w
       ++ ((fun p => ann_id p.2)
             <$> filter (fun p => ann_id p.2 ∉ storeIds w)
                   (reverse (imap pair announcements))).
Proof.
  intros Hw Hfeed Hok. rewrite <- toProcess_by_storeIds.
  destruct (p1_cycle_all_posted cfg env w announcements Hw Hfeed) as [Hd Hst].
  - intros [i ann] [Hi Hid]%elem_of_toProcess.
    destruct (Hok i ann Hi) as [Hbuilt Hsent]; [by rewrite <- elem_of_knownIds|].
    apply p1Thrown_none; [done|]. apply p1Throws_false. by right.
  - split_and!; [done|done|].
    unfold storeIds at 1. rewrite Hst, fmap_app, <- list_fmap_compose. done.
Qed.

Lemma part001_records_every_posted_witness :
  p1Loads freshWorld
  /\ store (Part001.runCycle oneWebhook (promptEnv (inr [noticeB; noticeA]))
              freshWorld).1
     = [{| rec_id := "https://www.bracu.ac.bd/node/101";
           rec_title := "Midterm schedule";
           rec_postedAt := "2025-06-04T10:00:01.000Z" |};
        {| rec_id := "https://www.bracu.ac.bd/node/102";
           rec_title := "Library hours";
           rec_postedAt := "2025-06-04T10:00:00.000Z" |}].
Proof.
  assert (p1Loads freshWorld) as Hw by (by left).
  split; [exact Hw|].
  destruct (part001_records_every_posted oneWebhook
              (promptEnv (inr [noticeB; noticeA])) freshWorld
              [noticeB; noticeA] Hw eq_refl) as (_ & H & _).
  - intros i ann Hi _. split.
    + destruct i as [|[|i]]; try discriminate; by injection Hi as <-.
    + exists 0%nat, 200. split; [simpl; lia|reflexivity].
  - rewrite H. vm_compute. reflexivity.
Defined.

(** X20. With no webhook configured, [postToDiscord] of [part_001]
    sends nothing: it returns an empty result when the embed is built
    and throws the error of [EmbedBuilder] otherwise. When the embed of
    every unknown candidate is built, the cycle records every one of
    them as posted all the same; when [EmbedBuilder] rejects one of
    them, the cycle ends there and nothing is saved. *)
Theorem part001_no_webhook_records_all cfg env w announcements :
  WEBHOOK_URLS cfg = [] -> p1Loads w -> feed env = inr announcements ->
  (forall (builder : Announcement -> option string) ann sendTo w0,
     Part001.postToDiscord cfg builder ann sendTo w0
     = match builder ann with
       | Some message => (Thrown message, w0, [])
       | None => (Normal [], w0, [])
       end)
  /\ ((forall i ann,
         announcements !! i = Some ann -> ann_id ann ∉ storeIds w ->
         embedError env ann = None) ->
      store (Part001.runCycle cfg env w).1
      = store w ++ ((fun p => postedRecordOf env p.1 p.2)
                      <$> filter (fun p => ann_id p.2 ∉ storeIds w)
                            (reverse (imap pair announcements))))
  /\ ((exists i ann,
         announcements !! i = Some ann /\ (ann_id ann ∉ storeIds w)
         /\ embedError env ann ≠ None) ->
      (Part001.runCycle cfg env w).1 = w
      /\ writesOf (Part001.runCycle cfg env w).2 = []).
Proof.
  intros Hnone Hw Hfeed. split_and!.
  - intros builder ann sendTo w0. rewrite p1_postToDiscord_run.
    rewrite p1Throws_false by (by left). unfold p1Results. by rewrite Hnone.
  - intros Hbuilt. rewrite <- toProcess_by_storeIds.
    apply p1_cycle_all_posted; [done|done|].
    intros [i ann] [Hi Hid]%elem_of_toProcess.
    apply p1Thrown_none; [|apply p1Throws_false; by left].
    apply (Hbuilt i ann Hi). by rewrite <- elem_of_knownIds.
  - intros (i & ann & Hi & Hid & Hrej).
    assert ((i, ann) ∈ toProcess (knownIds w) announcements) as Hin.
    { apply elem_of_toProcess. split; [done|]. by rewrite elem_of_knownIds. }
    assert (p1Thrown cfg env (i, ann) ≠ None) as Hthrow.
    { unfold p1Thrown. cbn [fst snd].
      by destruct (embedError env ann) as [message|]. }
    destruct (p1Loop_aborts cfg env _ (store w, false) (i, ann) Hin Hthrow)
      as (message & events & Hloop & Hwr & _).
    pose proof (p1_cycle_run cfg env w announcements Hw Hfeed) as Hrun.
    rewrite Hloop in Hrun. destruct Hrun as (Hsame & _ & Hwrites).
    by rewrite Hwrites.
Qed.

Lemma part001_no_webhook_records_all_witness :
  WEBHOOK_URLS noWebhook = []
  /\ p1Loads emptyWorld
  /\ store (Part001.runCycle noWebhook (promptEnv (inr [noticeA])) emptyWorld).1
     = [{| rec_id := "https://www.bracu.ac.bd/node/101";
           rec_title := "Midterm schedule";
           rec_postedAt := "2025-06-04T10:00:00.000Z" |}]
  /\ (Part001.runCycle noWebhook (promptEnv (inr [untitled; noticeA]))
        emptyWorld).1
     = emptyWorld.
Proof.
  assert (p1Loads emptyWorld) as Hw by (right; eexists; reflexivity).
  split; [reflexivity|]. split; [exact Hw|]. split.
  - destruct (part001_no_webhook_records_all noWebhook
                (promptEnv (inr [noticeA])) emptyWorld [noticeA] eq_refl Hw eq_refl)
      as (_ & H & _).
    rewrite H; [vm_compute; reflexivity|].
    intros i ann Hi _.
    destruct i as [|i]; [|by destruct i]. by injection Hi as <-.
  - destruct (part001_no_webhook_records_all noWebhook
                (promptEnv (inr [untitled; noticeA])) emptyWorld
                [untitled; noticeA] eq_refl Hw eq_refl) as (_ & _ & H).
    apply H. exists 0%nat, untitled.
    split; [reflexivity|]. split; [apply not_elem_of_nil|discriminate].
Defined.

Lemma p1_runCycle_unparsable cfg env w raw :
  db_file w = Some (Unparsable raw) ->
  Part001.runCycle cfg env w
  = (w, [EvLog (LogErrorInMain "Unexpected token in JSON")]).
Proof.
  intros H. unfold Part001.runCycle, Part001.main, Part001.mainBody, try_catch.
  unfold mbind at 1, M_bind, bind, Part001.loadPosted.
  unfold mbind, M_bind, bind, get_world. cbn. rewrite H. reflexivity.
Qed.

Lemma p1_runCycle_fetch_error cfg env w message :
  p1Loads w -> feed env = inl message ->
  Part001.runCycle cfg env w = (w, [EvLog (LogErrorInMain message)]).
Proof.
  intros Hw Hfeed.
  unfold Part001.runCycle, Part001.main, Part001.mainBody, try_catch.
  unfold mbind at 1, M_bind, bind. rewrite p1_loadPosted_run by done.
  rewrite Hfeed. reflexivity.
Qed.

(** X21. [loadPosted] of [part_001] neither repairs nor creates the
    state file. On a file that does not parse every cycle ends in the
    parse error, with the state untouched and nothing fetched, posted
    or written; and a missing file is still missing after any cycle
    that saved nothing. *)
Theorem part001_load_never_writes cfg env w :
  (forall raw,
     db_file w = Some (Unparsable raw) ->
     Part001.runCycle cfg env w
     = (w, [EvLog (LogErrorInMain "Unexpected token in JSON")]))
  /\ (db_file w = None ->
      writesOf (Part001.runCycle cfg env w).2 = [] ->
      db_file (Part001.runCycle cfg env w).1 = None).
Proof.
  split; [intros raw; apply p1_runCycle_unparsable|].
  intros Hnone Hwr. assert (p1Loads w) as Hw by (by left).
  destruct (feed env) as [message|anns] eqn:Hfeed.
  { by rewrite (p1_runCycle_fetch_error _ _ _ message). }
  pose proof (p1_cycle_run cfg env w anns Hw Hfeed) as Hrun.
  destruct (p1Loop cfg env (toProcess (knownIds w) anns) (store w, false))
    as [[[posted' [|]]|message] events].
  - destruct Hrun as (_ & _ & Hsave). rewrite Hsave in Hwr.
    by apply app_nil in Hwr as [_ ?].
  - destruct Hrun as (-> & _). done.
  - destruct Hrun as (-> & _). done.
Qed.

Lemma part001_load_never_writes_witness :
  db_file corruptWorld = Some (Unparsable "[{")
  /\ db_file freshWorld = None
  /\ Part001.runCycle oneWebhook (promptEnv (inr [noticeA])) corruptWorld
     = (corruptWorld, [EvLog (LogErrorInMain "Unexpected token in JSON")])
  /\ db_file (Part001.runCycle oneWebhook (promptEnv (inr [])) freshWorld).1
     = None.
Proof.
  split; [reflexivity|]. split; [reflexivity|]. split.
  - destruct (part001_load_never_writes oneWebhook (promptEnv (inr [noticeA]))
                corruptWorld) as [H _].
    apply (H "[{" eq_refl).
  - destruct (part001_load_never_writes oneWebhook (promptEnv (inr []))
                freshWorld) as [_ H].
    apply H; reflexivity.
Defined.

End Part001Facts.

(** ** The one-shot scraper *)

Section Part000Facts.
Import Part000.

Lemma postingLoop_all_sent o ids (announcements : list Scraped) i posted flag :
  (forall j, exists status, webhook o j = inr status) ->
  exists effects,
    postingLoop o ids announcements i posted flag
    = (inr (posted ++ (recordOf <$> filter (fun a => s_id a ∉ ids) announcements),
            match filter (fun a => s_id a ∉ ids) announcements with
            | [] => flag
            | _ => true
            end),
       effects)
    /\ sentOf effects = filter (fun a => s_id a ∉ ids) announcements
    /\ savedOf effects = [].
Proof.
  intros Hok. revert i posted flag.
  induction announcements as [|ann rest IH]; intros i posted flag.
  - exists []. cbn. by rewrite app_nil_r.
  - cbn [postingLoop]. destruct (decide (s_id ann ∈ ids)) as [Hin|Hout].
    + rewrite filter_cons_False by tauto. apply IH.
    + rewrite filter_cons_True by done.
      unfold postToDiscord. destruct (Hok i) as [status ->].
      destruct (IH (S i) (posted ++ [recordOf ann]) true)
        as (effects & -> & Hsent & Hsaved).
      eexists. split_and!.
      * cbn. rewrite <- app_assoc. cbn.
        by destruct (filter (fun a => s_id a ∉ ids) rest).
      * unfold sentOf in *. cbn. by rewrite Hsent.
      * unfold savedOf in *. cbn. done.
Qed.

Lemma postingLoop_aborts o ids (announcements : list Scraped) i posted flag
    k ann message :
  announcements !! k = Some ann -> s_id ann ∉ ids ->
  webhook o (i + k)%nat = inl message ->
  exists thrown effects,
    postingLoop o ids announcements i posted flag = (inl thrown, effects)
    /\ savedOf effects = [].
Proof.
  revert i posted flag k.
  induction announcements as [|a rest IH]; intros i posted flag k Hk Hid Hfail;
    [done|].
  cbn [postingLoop]. destruct k as [|k].
  - injection Hk as ->. rewrite decide_False by done.
    unfold postToDiscord. rewrite Nat.add_0_r in Hfail. rewrite Hfail.
    by eexists _, _.
  - simpl in Hk. replace (i + S k)%nat with (S i + k)%nat in Hfail by lia.
    destruct (decide (s_id a ∈ ids)).
    + by apply (IH _ _ _ k).
    + unfold postToDiscord. destruct (webhook o i) as [m|status].
      * by eexists _, _.
      * destruct (IH (S i) (posted ++ [recordOf a]) true k Hk Hid Hfail)
          as (thrown & effects & -> & Hsaved).
        eexists _, _. split; [done|]. unfold savedOf in *. cbn. done.
Qed.

(** X22. The one-shot scraper posts the unknown announcements in the
    order of the feed, first to last, and, provided no [fetch] rejects,
    ends with the state file holding the loaded records followed by
    theirs in that order: whatever HTTP status Discord answered, the
    announcement counts as posted. *)
Theorem part000_posts_in_feed_order o f announcements :
  f = Missing \/ (exists records, f = Holding records) ->
  scrape o = inr announcements ->
  (forall j, exists status, webhook o j = inr status) ->
  (main o f).1.1 = None
  /\ sentOf (main o f).2
     = filter (fun a => s_id a ∉ p_id <$> recordsOf f) announcements
  /\ recordsOf (main o f).1.2
     = recordsOf f
       ++ (recordOf <$> filter (fun a => s_id a ∉ p_id <$> recordsOf f)
                          announcements).
Proof.
  intros Hf Hscrape Hok.
  assert (loadPosted f = inr (recordsOf f)) as Hload
    by (by destruct Hf as [->|[records ->]]).
  unfold main. rewrite Hload, Hscrape.
  set (ids := list_to_set (p_id <$> recordsOf f) : gset string).
  assert (filter (fun a => s_id a ∉ p_id <$> recordsOf f) announcements
          = filter (fun a => s_id a ∉ ids) announcements) as ->.
  { apply list_filter_iff. intros a. unfold ids.
    by rewrite elem_of_list_to_set. }
  destruct (postingLoop_all_sent o ids announcements 0 (recordsOf f) false Hok)
    as (effects & -> & Hsent & Hsaved).
  destruct (filter (fun a => s_id a ∉ ids) announcements) as [|a l] eqn:Hl;
    cbn [fst snd recordsOf].
  - split; [done|]. split.
    + unfold sentOf in *. by rewrite omap_app, Hsent.
    + by rewrite app_nil_r.
  - split; [done|]. split; [|done].
    unfold sentOf in *. rewrite omap_app, Hsent. cbn. by rewrite app_nil_r.
Qed.

Lemma part000_posts_in_feed_order_witness :
  (Missing = Missing \/ exists records, Missing = Holding records)
  /\ recordsOf (main (answering 404 [scrapedB; scrapedA]) Missing).1.2
     = [recordOf scrapedB; recordOf scrapedA].
Proof.
  assert (Missing = Missing \/ exists records, Missing = Holding records) as Hf
    by (by left).
  split; [exact Hf|].
  destruct (part000_posts_in_feed_order (answering 404 [scrapedB; scrapedA])
              Missing [scrapedB; scrapedA] Hf eq_refl) as (_ & _ & H).
  - intros j. by exists 404%nat.
  - rewrite H. vm_compute. reflexivity.
Defined.

(** X23. Nothing is caught in the one-shot scraper: when the [fetch]
    for an unknown announcement rejects, [main] ends in a rejection,
    the state file is left as it was and nothing is saved, not even
    the announcements already posted in this run. *)
Theorem part000_network_failure_saves_nothing o f announcements k ann message :
  f = Missing \/ (exists records, f = Holding records) ->
  scrape o = inr announcements ->
  announcements !! k = Some ann ->
  s_id ann ∉ p_id <$> recordsOf f ->
  webhook o k = inl message ->
  (exists thrown, (main o f).1.1 = Some thrown)
  /\ (main o f).1.2 = f
  /\ savedOf (main o f).2 = [].
Proof.
  intros Hf Hscrape Hk Hid Hfail.
  assert (loadPosted f = inr (recordsOf f)) as Hload
    by (by destruct Hf as [->|[records ->]]).
  unfold main. rewrite Hload, Hscrape.
  destruct (postingLoop_aborts o (list_to_set (p_id <$> recordsOf f))
              announcements 0 (recordsOf f) false k ann message Hk)
    as (thrown & effects & -> & Hsaved); [|done|].
  - by rewrite elem_of_list_to_set.
  - cbn. eauto.
Qed.

Lemma part000_network_failure_saves_nothing_witness :
  (Missing = Missing \/ exists records, Missing = Holding records)
  /\ (s_id scrapedA ∉ p_id <$> recordsOf Missing)
  /\ sentOf (main (failingAtOne [scrapedB; scrapedA]) Missing).2
     = [scrapedB; scrapedA]
  /\ (main (failingAtOne [scrapedB; scrapedA]) Missing).1.2 = Missing.
Proof.
  assert (Missing = Missing \/ exists records, Missing = Holding records) as Hf
    by (by left).
  assert (s_id scrapedA ∉ p_id <$> recordsOf Missing) as Hid
    by apply not_elem_of_nil.
  split; [exact Hf|]. split; [exact Hid|]. split; [vm_compute; reflexivity|].
  by destruct (part000_network_failure_saves_nothing
                 (failingAtOne [scrapedB; scrapedA]) Missing
                 [scrapedB; scrapedA] 1 scrapedA "fetch failed"
                 Hf eq_refl eq_refl Hid eq_refl) as (_ & -> & _).
Defined.

End Part000Facts.
